(** * Deployment-config describer and user registry [Get]

    A shallow embedding of

    - [pkg/cmd/cli/describe]: [DeploymentConfigDescriber.Describe] and the
      printing helpers it calls ([multilineStringArray], [printStrategy],
      [printHook], [printTriggers], [printDeploymentConfigSpec],
      [printAutoscalingInfo], [printDeploymentRc],
      [getPodStatusForDeployment]);
    - [pkg/user/registry/user/etcd]: [REST.Get].

    Go values are modelled as follows.  [int] and [int64] are [Z]; no
    arithmetic here can leave the 64-bit range (the only additions count
    elements of an in-memory slice).  A [string] is a [string], compared
    bytewise.  A pointer that may be [nil] is an [option]; dereferencing
    [nil] and indexing out of range is a run-time panic, the [None] of the
    monad [W].  A [(value, error)] result of a client call is a [Result],
    that of the store the pair itself.  A [*tabwriter.Writer] is the text
    written to it so far.  Where the source overwrites a slice that it
    shares with its caller, the function returns the object as it leaves
    it. *)

From Stdlib Require Import ZArith List String Ascii Bool Lia.
From Stdlib Require Import DecimalString DecimalZ DecimalPos Sorted Permutation.
From Stdlib Require Import OrdersEx MSetList SetoidList.
Import ListNotations.

#[local] Open Scope string_scope.
#[local] Open Scope Z_scope.

(** ** Go's [strings], [strconv], [fmt] and [sort] packages *)

Definition TAB : string := String "009"%char EmptyString.
Definition NL : string := String "010"%char EmptyString.

(** [len(s)] *)
Definition len (s : string) : Z := Z.of_nat (String.length s).

(** [strconv.FormatInt(i, 10)], also the verb [%d]. *)
Definition FormatInt (i : Z) : string := NilZero.string_of_int (Z.to_int i).

(** The verb [%v] at a [bool]. *)
Definition FormatBool (b : bool) : string := if b then "true" else "false".

(** [strings.HasSuffix(s, suffix)] *)
Definition strings_HasSuffix (s suffix : string) : bool :=
  let n := String.length s in
  let m := String.length suffix in
  (m <=? n)%nat && String.eqb (substring (n - m) m s) suffix.

(** [strings.TrimSuffix(s, suffix)] *)
Definition strings_TrimSuffix (s suffix : string) : string :=
  if strings_HasSuffix s suffix
  then substring 0 (String.length s - String.length suffix) s
  else s.

(** [strings.Contains(s, substr)] *)
Fixpoint strings_Contains (s substr : string) : bool :=
  prefix substr s ||
  match s with
  | EmptyString => false
  | String _ s' => strings_Contains s' substr
  end.

(** [strings.Split(s, sep)] for a non-empty [sep]: [cur] is the piece read
    so far, [skip] the number of bytes of a separator still to pass. *)
Fixpoint splitLoop (sep : string) (skip : nat) (cur s : string) : list string :=
  match s with
  | EmptyString => [cur]
  | String c s' =>
      match skip with
      | S k => splitLoop sep k cur s'
      | O =>
          if prefix sep s
          then cur :: splitLoop sep (String.length sep - 1) EmptyString s'
          else splitLoop sep O (cur ++ String c EmptyString) s'
      end
  end.

(** With an empty separator [strings.Split] explodes [s] into its bytes
    (UTF-8 sequences in Go; the inputs here are ASCII). *)
Definition strings_Split (s sep : string) : list string :=
  match sep with
  | EmptyString => map (fun c => String c EmptyString) (list_ascii_of_string s)
  | _ => splitLoop sep O EmptyString s
  end.

(** [strings.Join(a, sep)] *)
Definition strings_Join (a : list string) (sep : string) : string :=
  String.concat sep a.

(** [strings.TrimRight(s, cutset)]: drop the trailing bytes that occur in
    [cutset]. *)
Definition inCutset (cutset : string) (c : ascii) : bool :=
  existsb (Ascii.eqb c) (list_ascii_of_string cutset).

Fixpoint strings_TrimRight (s cutset : string) : string :=
  match s with
  | EmptyString => EmptyString
  | String c s' =>
      match strings_TrimRight s' cutset with
      | EmptyString => if inCutset cutset c then EmptyString else String c EmptyString
      | t => String c t
      end
  end.

(** [sort.Sort(data)] is specified up to the order of elements that [Less]
    does not separate; it is modelled by insertion, which fixes that order
    too.  [less] is [data.Less] on the elements. *)
Section Sort.
Context {A : Type}.
Variable less : A -> A -> bool.

Fixpoint sort_insert (x : A) (l : list A) : list A :=
  match l with
  | [] => [x]
  | y :: t => if less y x then y :: sort_insert x t else x :: y :: t
  end.

Fixpoint sort_Sort (l : list A) : list A :=
  match l with
  | [] => []
  | x :: t => sort_insert x (sort_Sort t)
  end.

(** [sort.Reverse(data).Less(i, j)] is [data.Less(j, i)]. *)
Definition sort_Reverse (x y : A) : bool := less y x.
End Sort.

(** ** Errors *)

Inductive StatusReason : Type :=
| StatusReasonUnknown
| StatusReasonNotFound
| StatusReasonForbidden
| StatusReasonOther (reason : string).

Record GroupResource : Type := {
  Group : string;
  Resource : string
}.

(** The values of type [error] that occur: those the code builds with
    [errors.New], [kerrs.NewForbidden] and [field.Invalid] (on the path
    [field.NewPath(path...)]), and the API status errors and other errors
    that a collaborator returns. *)
Inductive error : Type :=
| errors_New (text : string)
| kerrs_NewForbidden (qualifiedResource : GroupResource) (name : string) (err : error)
| field_Invalid (path : list string) (value detail : string)
| StatusError (reason : StatusReason) (message : string).

Definition Result (A : Type) : Type := (A + error)%type.

(** [kerrors.IsNotFound(err)] *)
Definition IsNotFound (err : error) : bool :=
  match err with
  | StatusError StatusReasonNotFound _ => true
  | _ => false
  end.

(** [kerrors.IsForbidden(err)] *)
Definition IsForbidden (err : error) : bool :=
  match err with
  | kerrs_NewForbidden _ _ _ => true
  | StatusError StatusReasonForbidden _ => true
  | _ => false
  end.

(** ** The writer monad

    A computation that writes to [out] and may panic. *)

Definition W (A : Type) : Type := string -> option (A * string).

Definition ret {A} (a : A) : W A := fun out => Some (a, out).

Definition bind {A B} (m : W A) (k : A -> W B) : W B :=
  fun out =>
    match m out with
    | Some (a, out') => k a out'
    | None => None
    end.

Definition panic {A} : W A := fun _ => None.

(** [fmt.Fprintf(w, ...)] with the formatted text [s]. *)
Definition Fprint (s : string) : W unit := fun out => Some (tt, out ++ s).

(** [fmt.Fprintln(w)] *)
Definition Fprintln : W unit := Fprint NL.

Definition liftOption {A} (o : option A) : W A :=
  match o with
  | Some a => ret a
  | None => panic
  end.

Notation "x <- c1 ;; c2" := (bind c1 (fun x => c2))
  (at level 61, c1 at next level, right associativity).
Notation "' pat <- c1 ;; c2" := (bind c1 (fun x => match x with pat => c2 end))
  (at level 61, pat pattern, c1 at next level, right associativity).
Notation "c1 ;; c2" := (bind c1 (fun _ => c2))
  (at level 61, right associativity).

(** ** Data model: the fields of the API objects that the code reads *)

Definition labelMap : Type := list (string * string).

(** [unversioned.Time]: an instant, in nanoseconds. *)
Definition Time : Type := Z.

Record ObjectMeta : Type := {
  Name : string;
  Namespace : string;
  CreationTimestamp : Time;
  Labels : labelMap;
  Annotations : labelMap
}.

Record ObjectReference : Type := {
  ref_Kind : string;
  ref_Namespace : string;
  ref_Name : string
}.

Record EnvVar : Type := {
  env_Name : string;
  env_Value : string
}.

(** [kapi.PodTemplateSpec] is handed to [kctl.DescribePodTemplate] unread. *)
Record PodTemplateSpec : Type := {
  template_Meta : ObjectMeta;
  template_Images : list string
}.

Record ExecNewPodHook : Type := {
  exec_Command : list string;
  exec_Env : list EnvVar;
  exec_ContainerName : string
}.

Record TagImageHook : Type := {
  tag_ContainerName : string;
  tag_To : ObjectReference
}.

Record LifecycleHook : Type := {
  FailurePolicy : string;
  ExecNewPod : option ExecNewPodHook;
  TagImages : list TagImageHook
}.

Record CustomDeploymentStrategyParams : Type := {
  custom_Image : string;
  custom_Environment : list EnvVar;
  custom_Command : list string
}.

Record RecreateDeploymentStrategyParams : Type := {
  recreate_Pre : option LifecycleHook;
  recreate_Mid : option LifecycleHook;
  recreate_Post : option LifecycleHook
}.

Record RollingDeploymentStrategyParams : Type := {
  rolling_Pre : option LifecycleHook;
  rolling_Post : option LifecycleHook
}.

Record DeploymentStrategy : Type := {
  strategy_Type : string;
  CustomParams : option CustomDeploymentStrategyParams;
  RecreateParams : option RecreateDeploymentStrategyParams;
  RollingParams : option RollingDeploymentStrategyParams
}.

Record DeploymentTriggerImageChangeParams : Type := {
  Automatic : bool;
  From : ObjectReference
}.

Record DeploymentTriggerPolicy : Type := {
  trigger_Type : string;
  ImageChangeParams : option DeploymentTriggerImageChangeParams
}.

Definition DeploymentTriggerOnConfigChange : string := "ConfigChange".
Definition DeploymentTriggerOnImageChange : string := "ImageChange".

Record DeploymentConfigSpec : Type := {
  Strategy : DeploymentStrategy;
  Triggers : list DeploymentTriggerPolicy;
  spec_Replicas : Z;
  Test : bool;
  spec_Selector : labelMap;
  Template : option PodTemplateSpec
}.

Record DeploymentDetails : Type := {
  Message : string
}.

Record DeploymentConfigStatus : Type := {
  LatestVersion : Z;
  Details : option DeploymentDetails
}.

Record DeploymentConfig : Type := {
  dc_Meta : ObjectMeta;
  dc_Spec : DeploymentConfigSpec;
  dc_Status : DeploymentConfigStatus
}.

Record ReplicationController : Type := {
  rc_Meta : ObjectMeta;
  rc_SpecReplicas : Z;
  rc_SpecSelector : labelMap;
  rc_StatusReplicas : Z
}.

Record Pod : Type := {
  pod_Phase : string
}.

Definition PodPending : string := "Pending".
Definition PodRunning : string := "Running".
Definition PodSucceeded : string := "Succeeded".
Definition PodFailed : string := "Failed".

(** [kapi.Event] is handed to [kctl.DescribeEvents] unread. *)
Record Event : Type := {
  event_Reason : string;
  event_Message : string
}.

Record SubresourceReference : Type := {
  scale_Kind : string;
  scale_Name : string
}.

Record HorizontalPodAutoscaler : Type := {
  ScaleRef : SubresourceReference;
  MinReplicas : option Z;
  MaxReplicas : Z;
  CPUUtilization : option Z
}.

(** [unversioned.GroupResource.String] *)
Definition GroupResource_String (gr : GroupResource) : string :=
  if len (Group gr) =? 0 then Resource gr else Resource gr ++ "." ++ Group gr.

Record DescriberSettings : Type := {
  ShowEvents : bool
}.

(** [kclient.Interface]: the responses of the cluster to the read calls the
    describer makes. *)
Record KubeClient : Type := {
  ReplicationControllers_Get : string -> string -> Result ReplicationController;
  ReplicationControllers_List : string -> Result (list ReplicationController);
  Pods_List : string -> labelMap -> Result (list Pod);
  Events_Search : string -> DeploymentConfig -> Result (option (list Event));
  HorizontalPodAutoscalers_List : string -> Result (list HorizontalPodAutoscaler)
}.

(** [client.Interface] *)
Record OsClient : Type := {
  DeploymentConfigs_Get : string -> string -> Result DeploymentConfig
}.

Record DeploymentConfigDescriber : Type := {
  osClient : OsClient;
  kubeClient : KubeClient;
  config : option DeploymentConfig
}.

(** Functions of other packages that the describer calls and whose source
    is not part of this development.  Those that print are given as the text
    they write.  [formatRelativeTime] reads the clock, so an instance stands
    for one instant of rendering. *)
Class Helpers : Type := {
  formatMeta : ObjectMeta -> string;
  formatString : string -> string -> string;
  formatLabels : labelMap -> string;
  convertEnv : list EnvVar -> labelMap;
  formatRelativeTime : Time -> string;
  strings_ToLower : string -> string;
  tabwriter_Flush : string -> string;
  DescribePodTemplate : option PodTemplateSpec -> string;
  DescribeEvents : list Event -> string;
  Error : error -> string;
  deployapi_Resource : string -> GroupResource;
  SplitImageStreamTag : string -> string * string * bool;
  LatestDeploymentNameForConfig : DeploymentConfig -> string;
  DeploymentVersionFor : ReplicationController -> Z;
  DeploymentConfigNameFor : ReplicationController -> string;
  DeploymentStatusFor : ReplicationController -> string
}.

(** ** [pkg/cmd/cli/describe] *)

Definition maxDisplayDeployments : Z := 3.
Definition maxDisplayDeploymentsEvents : Z := 8.

(** [len(l)] of a slice. *)
Definition lenL {A} (l : list A) : Z := Z.of_nat (List.length l).

(** One round of the loop of [multilineStringArray]: the value stored back
    into [args[i]]. *)
Definition reflow (indent s : string) : string :=
  let s := if strings_HasSuffix s NL then strings_TrimSuffix s NL else s in
  if strings_Contains s NL
  then NL ++ indent ++ strings_Join (strings_Split s NL) (NL ++ indent)
  else s.

(** [multilineStringArray(sep, indent, args...)].  The loop assigns
    [args[i] = s], and a caller that passes [slice...] shares the slice's
    array with [args]: the second component is that array after the call.
    The value of [strings.TrimRight] is dropped by the source; evaluating its
    argument [args[len(args)-1]] panics on an empty [args]. *)
Definition multilineStringArray (sep indent : string) (args : list string)
  : option (string * list string) :=
  let args := map (reflow indent) args in
  match nth_error args (Z.to_nat (lenL args - 1)) with
  | Some l =>
      let _ := strings_TrimRight l (NL ++ " ") in
      Some (strings_Join args " ", args)
  | None => None
  end.

(** [for _, x := range l { f(x) }] *)
Fixpoint forEach {A} (l : list A) (f : A -> W unit) : W unit :=
  match l with
  | [] => ret tt
  | x :: t => f x ;; forEach t f
  end.

Definition when (b : bool) (m : W unit) : W unit := if b then m else ret tt.

(** [printHook(prefix, hook, indent, w)]; the value is [*hook] after the
    call, whose command [multilineStringArray] has overwritten. *)
Definition printHook `{Helpers} (prefix : string) (hook : LifecycleHook)
    (indent : string) : W LifecycleHook :=
  exec <- match ExecNewPod hook with
          | Some e =>
              Fprint (indent ++ prefix ++ " hook (pod type, failure policy: "
                        ++ FailurePolicy hook ++ "):" ++ NL) ;;
              Fprint (indent ++ "  Container:" ++ TAB ++ exec_ContainerName e ++ NL) ;;
              '(text, args) <- liftOption
                  (multilineStringArray " " (TAB ++ "  ") (exec_Command e)) ;;
              Fprint (indent ++ "  Command:" ++ TAB ++ text ++ NL) ;;
              when (0 <? lenL (exec_Env e))
                (Fprint (indent ++ "  Env:" ++ TAB
                           ++ formatLabels (convertEnv (exec_Env e)) ++ NL)) ;;
              ret (Some {| exec_Command := args;
                           exec_Env := exec_Env e;
                           exec_ContainerName := exec_ContainerName e |})
          | None => ret None
          end ;;
  when (0 <? lenL (TagImages hook))
    (Fprint (indent ++ prefix ++ " hook (tag images, failure policy: "
               ++ FailurePolicy hook ++ "):" ++ NL) ;;
     forEach (TagImages hook) (fun image =>
       Fprint (indent ++ "  Tag:" ++ TAB ++ "container " ++ tag_ContainerName image
                 ++ " to " ++ ref_Kind (tag_To image) ++ " " ++ ref_Name (tag_To image)
                 ++ " " ++ ref_Namespace (tag_To image) ++ NL))) ;;
  ret {| FailurePolicy := FailurePolicy hook;
         ExecNewPod := exec;
         TagImages := TagImages hook |}.

(** [if hook != nil { printHook(prefix, hook, indent, w) }] *)
Definition printHookIfSet `{Helpers} (prefix : string) (hook : option LifecycleHook)
    (indent : string) : W (option LifecycleHook) :=
  match hook with
  | Some h => h' <- printHook prefix h indent ;; ret (Some h')
  | None => ret None
  end.

(** [printStrategy(strategy, indent, w)]; the value is the strategy as the
    call leaves it: the struct is passed by value, the parameters and hooks
    behind its pointers are shared with the caller. *)
Definition printStrategy `{Helpers} (strategy : DeploymentStrategy) (indent : string)
  : W DeploymentStrategy :=
  custom <- match CustomParams strategy with
            | Some p =>
                (if len (custom_Image p) =? 0
                 then Fprint (indent ++ "Image:" ++ TAB ++ "<default>" ++ NL)
                 else Fprint (indent ++ "Image:" ++ TAB ++ custom_Image p ++ NL)) ;;
                when (0 <? lenL (custom_Environment p))
                  (Fprint (indent ++ "Environment:" ++ TAB
                             ++ formatLabels (convertEnv (custom_Environment p)) ++ NL)) ;;
                if 0 <? lenL (custom_Command p)
                then
                  '(text, args) <- liftOption
                      (multilineStringArray " " (TAB ++ "  ") (custom_Command p)) ;;
                  Fprint (indent ++ "Command:" ++ TAB ++ text ++ NL) ;;
                  ret (Some {| custom_Image := custom_Image p;
                               custom_Environment := custom_Environment p;
                               custom_Command := args |})
                else ret (Some p)
            | None => ret None
            end ;;
  recreate <- match RecreateParams strategy with
              | Some p =>
                  pre <- printHookIfSet "Pre-deployment" (recreate_Pre p) indent ;;
                  mid <- printHookIfSet "Mid-deployment" (recreate_Mid p) indent ;;
                  post <- printHookIfSet "Post-deployment" (recreate_Post p) indent ;;
                  ret (Some {| recreate_Pre := pre;
                               recreate_Mid := mid;
                               recreate_Post := post |})
              | None => ret None
              end ;;
  rolling <- match RollingParams strategy with
             | Some p =>
                 pre <- printHookIfSet "Pre-deployment" (rolling_Pre p) indent ;;
                 post <- printHookIfSet "Post-deployment" (rolling_Post p) indent ;;
                 ret (Some {| rolling_Pre := pre; rolling_Post := post |})
             | None => ret None
             end ;;
  ret {| strategy_Type := strategy_Type strategy;
         CustomParams := custom;
         RecreateParams := recreate;
         RollingParams := rolling |}.

(** The loop of [printTriggers]: [labels] grows by [append]. *)
Fixpoint triggerLabels `{Helpers} (triggers : list DeploymentTriggerPolicy)
    (labels : list string) : option (list string) :=
  match triggers with
  | [] => Some labels
  | t :: rest =>
      if String.eqb (trigger_Type t) DeploymentTriggerOnConfigChange then
        triggerLabels rest (labels ++ ["Config"])%list
      else if String.eqb (trigger_Type t) DeploymentTriggerOnImageChange then
        match ImageChangeParams t with
        | None => None
        | Some p =>
            if 0 <? len (ref_Name (From p)) then
              let '(name, tag, _) := SplitImageStreamTag (ref_Name (From p)) in
              let label := "Image(" ++ name ++ "@" ++ tag ++ ", auto="
                             ++ FormatBool (Automatic p) ++ ")" in
              triggerLabels rest (labels ++ [label])%list
            else triggerLabels rest labels
        end
      else triggerLabels rest labels
  end.

(** [printTriggers(triggers, w)] *)
Definition printTriggers `{Helpers} (triggers : list DeploymentTriggerPolicy) : W unit :=
  if lenL triggers =? 0 then Fprint (formatString "Triggers" "<none>")
  else
    labels <- liftOption (triggerLabels triggers []) ;;
    let desc := strings_Join labels ", " in
    Fprint (formatString "Triggers" desc).

(** The test of the first loop of [printAutoscalingInfo]. *)
Definition scales (res : GroupResource) (name : string)
    (hpa : HorizontalPodAutoscaler) : bool :=
  String.eqb (scale_Name (ScaleRef hpa)) name
  && String.eqb (scale_Kind (ScaleRef hpa)) (GroupResource_String res).

(** [printAutoscalingInfo(res, namespace, name, kclient, w)]: the second
    loop leaves by [break] at the end of its first round. *)
Definition printAutoscalingInfo (res : GroupResource) (namespace name : string)
    (kclient : KubeClient) : W unit :=
  match HorizontalPodAutoscalers_List kclient namespace with
  | inr _ => ret tt
  | inl items =>
      let scaledBy := filter (scales res name) items in
      match scaledBy with
      | [] => ret tt
      | hpa :: _ =>
          let cpuUtil :=
            match CPUUtilization hpa with
            | Some target => ", triggered at " ++ FormatInt target ++ "% CPU usage"
            | None => ""
            end in
          minReplicas <- liftOption (MinReplicas hpa) ;;
          Fprint ("Autoscaling:" ++ TAB ++ "between " ++ FormatInt minReplicas
                    ++ " and " ++ FormatInt (MaxReplicas hpa) ++ " replicas"
                    ++ cpuUtil ++ NL)
      end
  end.

(** [printDeploymentConfigSpec(kc, dc, w)]; the value is the config as the
    call leaves it (the error returned is always [nil]). *)
Definition printDeploymentConfigSpec `{Helpers} (kc : KubeClient) (dc : DeploymentConfig)
  : W DeploymentConfig :=
  let spec := dc_Spec dc in
  Fprint (formatString "Selector" (formatLabels (spec_Selector spec))) ;;
  let test := if Test spec then " (test, will be scaled down between deployments)" else "" in
  Fprint (formatString "Replicas" (FormatInt (spec_Replicas spec) ++ test)) ;;
  printAutoscalingInfo (deployapi_Resource "DeploymentConfig")
    (Namespace (dc_Meta dc)) (Name (dc_Meta dc)) kc ;;
  printTriggers (Triggers spec) ;;
  Fprint (formatString "Strategy" (strategy_Type (Strategy spec))) ;;
  strategy <- printStrategy (Strategy spec) "  " ;;
  Fprint ("Template:" ++ NL) ;;
  Fprint (DescribePodTemplate (Template spec)) ;;
  ret {| dc_Meta := dc_Meta dc;
         dc_Spec := {| Strategy := strategy;
                       Triggers := Triggers spec;
                       spec_Replicas := spec_Replicas spec;
                       Test := Test spec;
                       spec_Selector := spec_Selector spec;
                       Template := Template spec |};
         dc_Status := dc_Status dc |}.

(** The [switch] of [getPodStatusForDeployment] on one pod. *)
Definition countPhase (counts : Z * Z * Z * Z) (pod : Pod) : Z * Z * Z * Z :=
  let '(running, waiting, succeeded, failed) := counts in
  if String.eqb (pod_Phase pod) PodRunning then (running + 1, waiting, succeeded, failed)
  else if String.eqb (pod_Phase pod) PodPending then (running, waiting + 1, succeeded, failed)
  else if String.eqb (pod_Phase pod) PodSucceeded then (running, waiting, succeeded + 1, failed)
  else if String.eqb (pod_Phase pod) PodFailed then (running, waiting, succeeded, failed + 1)
  else counts.

(** [getPodStatusForDeployment(deployment, kubeClient)] *)
Definition getPodStatusForDeployment (deployment : ReplicationController)
    (kubeClient : KubeClient) : Z * Z * Z * Z * option error :=
  match Pods_List kubeClient (Namespace (rc_Meta deployment)) (rc_SpecSelector deployment) with
  | inr err => (0, 0, 0, 0, Some err)
  | inl items => (fold_left countPhase items (0, 0, 0, 0), None)
  end.

(** [printDeploymentRc(deployment, kubeClient, w, header, verbose)] *)
Definition printDeploymentRc `{Helpers} (deployment : ReplicationController)
    (kubeClient : KubeClient) (header : string) (verbose : bool) : W (option error) :=
  when (0 <? len header) (Fprint (header ++ ":" ++ NL)) ;;
  when verbose (Fprint (TAB ++ "Name:" ++ TAB ++ Name (rc_Meta deployment) ++ NL)) ;;
  let timeAt := strings_ToLower (formatRelativeTime (CreationTimestamp (rc_Meta deployment))) in
  Fprint (TAB ++ "Created:" ++ TAB ++ timeAt ++ " ago" ++ NL) ;;
  Fprint (TAB ++ "Status:" ++ TAB ++ DeploymentStatusFor deployment ++ NL) ;;
  Fprint (TAB ++ "Replicas:" ++ TAB ++ FormatInt (rc_StatusReplicas deployment)
            ++ " current / " ++ FormatInt (rc_SpecReplicas deployment) ++ " desired" ++ NL) ;;
  if verbose then
    Fprint (TAB ++ "Selector:" ++ TAB ++ formatLabels (rc_SpecSelector deployment) ++ NL) ;;
    Fprint (TAB ++ "Labels:" ++ TAB ++ formatLabels (Labels (rc_Meta deployment)) ++ NL) ;;
    match getPodStatusForDeployment deployment kubeClient with
    | (_, Some err) => ret (Some err)
    | ((running, waiting, succeeded, failed), None) =>
        Fprint (TAB ++ "Pods Status:" ++ TAB ++ FormatInt running ++ " Running / "
                  ++ FormatInt waiting ++ " Waiting / " ++ FormatInt succeeded
                  ++ " Succeeded / " ++ FormatInt failed ++ " Failed" ++ NL) ;;
        ret None
    end
  else ret None.

(** [rcutils.OverlappingControllers.Less], of the Kubernetes package
    [k8s.io/kubernetes/pkg/controller/replication] that the file imports
    (replication_controller_utils.go), where the type is documented to sort
    a list of controllers by creation timestamp, using their names as a tie
    breaker: [Less(i, j)] is [o[i].Name < o[j].Name] when the creation
    timestamps are [Equal], and [CreationTimestamp.Before] otherwise. *)
Definition OverlappingControllers_Less (a b : ReplicationController) : bool :=
  if CreationTimestamp (rc_Meta a) =? CreationTimestamp (rc_Meta b)
  then String.ltb (Name (rc_Meta a)) (Name (rc_Meta b))
  else CreationTimestamp (rc_Meta a) <? CreationTimestamp (rc_Meta b).

(** Modelled from the spec: [tabbedString] of the package's helpers, which
    runs [f] on a fresh tab writer and returns the flushed, column-aligned
    text, or the error of [f] and no text. *)
Definition tabbedString `{Helpers} {S} (f : W (option error * S))
  : option (string * option error * S) :=
  match f "" with
  | None => None
  | Some ((Some err, s), _) => Some ("", Some err, s)
  | Some ((None, s), out) => Some (tabwriter_Flush out, None, s)
  end.

(** The "Latest Version" line of [Describe]. *)
Definition describeLatestVersion `{Helpers} (deploymentConfig : DeploymentConfig) : W unit :=
  if LatestVersion (dc_Status deploymentConfig) =? 0
  then Fprint (formatString "Latest Version" "Not deployed")
  else Fprint (formatString "Latest Version"
                 (FormatInt (LatestVersion (dc_Status deploymentConfig)))).

(** The warning line of [Describe]. *)
Definition describeWarning (deploymentConfig : DeploymentConfig) : W unit :=
  match Details (dc_Status deploymentConfig) with
  | Some details =>
      when (0 <? len (Message details))
        (Fprint ("Warning:" ++ TAB ++ Message details ++ NL))
  | None => ret tt
  end.

(** The latest deployment of [Describe]; the error of [printDeploymentRc] is
    dropped. *)
Definition describeLatestDeployment `{Helpers} (kubeClient : KubeClient)
    (namespace deploymentName : string) : W unit :=
  match ReplicationControllers_Get kubeClient namespace deploymentName with
  | inr err =>
      if IsNotFound err
      then Fprint (formatString "Latest Deployment" "<none>")
      else Fprint (formatString "Latest Deployment" ("error: " ++ Error err))
  | inl deployment =>
      let header := "Deployment #" ++ FormatInt (DeploymentVersionFor deployment)
                      ++ " (latest)" in
      printDeploymentRc deployment kubeClient header true ;;
      ret tt
  end.

(** The loop over the sorted history of [Describe], entered with
    [counter].  Its value lists the deployments it has printed, in the order
    of printing. *)
Fixpoint historyLoop `{Helpers} (kubeClient : KubeClient)
    (deploymentConfig : DeploymentConfig) (deploymentName : string)
    (sorted : list ReplicationController) (counter : Z)
  : W (list ReplicationController) :=
  match sorted with
  | [] => ret []
  | item :: rest =>
      '(counter, printed) <-
        (if negb (String.eqb (Name (rc_Meta item)) deploymentName)
            && String.eqb (Name (dc_Meta deploymentConfig)) (DeploymentConfigNameFor item)
         then
           let header := "Deployment #" ++ FormatInt (DeploymentVersionFor item) in
           printDeploymentRc item kubeClient header false ;;
           ret (counter + 1, [item])
         else ret (counter, [])) ;;
      if counter =? maxDisplayDeployments then ret printed
      else
        more <- historyLoop kubeClient deploymentConfig deploymentName rest counter ;;
        ret (printed ++ more)%list
  end.

(** The deployment history of [Describe], left out when the describer was
    given its config. *)
Definition describeHistory `{Helpers} (d : DeploymentConfigDescriber)
    (namespace : string) (deploymentConfig : DeploymentConfig) (deploymentName : string)
  : W (list ReplicationController) :=
  match config d with
  | None =>
      match ReplicationControllers_List (kubeClient d) namespace with
      | inl items =>
          let sorted := sort_Sort (sort_Reverse OverlappingControllers_Less) items in
          historyLoop (kubeClient d) deploymentConfig deploymentName sorted 1
      | inr _ => ret []
      end
  | Some _ => ret []
  end.

(** The loop that collects the events to show, at the head of a round with
    index [i]; [i] decreases by one a round. *)
Fixpoint latestEventsLoop (items : list Event) (i : nat) (latest : list Event)
  : option (list Event) :=
  match i with
  | O => Some latest
  | S j =>
      if Z.of_nat i >? lenL items - maxDisplayDeploymentsEvents
      then
        match nth_error items j with
        | Some e => latestEventsLoop items j (latest ++ [e])%list
        | None => None
        end
      else Some latest
  end.

(** The events of [Describe]; the value lists the events handed to
    [kctl.DescribeEvents]. *)
Definition describeEvents `{Helpers} (kubeClient : KubeClient)
    (settings : DescriberSettings) (deploymentConfig : DeploymentConfig)
  : W (list Event) :=
  if ShowEvents settings then
    match Events_Search kubeClient (Namespace (dc_Meta deploymentConfig)) deploymentConfig with
    | inl (Some items) =>
        latestDeploymentEvents <- liftOption
            (latestEventsLoop items (List.length items) []) ;;
        Fprintln ;;
        Fprint (DescribeEvents latestDeploymentEvents) ;;
        ret latestDeploymentEvents
    | _ => ret []
    end
  else ret [].

(** The first part of the function that [Describe] hands to
    [tabbedString]: the config itself, up to the warning line.  The value is
    the config object as [printDeploymentConfigSpec] leaves it. *)
Definition describeConfig `{Helpers} (kubeClient : KubeClient)
    (deploymentConfig : DeploymentConfig) : W DeploymentConfig :=
  Fprint (formatMeta (dc_Meta deploymentConfig)) ;;
  describeLatestVersion deploymentConfig ;;
  deploymentConfig <- printDeploymentConfigSpec kubeClient deploymentConfig ;;
  Fprintln ;;
  describeWarning deploymentConfig ;;
  ret deploymentConfig.

(** The function that [Describe] hands to [tabbedString].  It returns [nil];
    next to it stands the config object as the call leaves it. *)
Definition describeBody `{Helpers} (d : DeploymentConfigDescriber) (namespace : string)
    (settings : DescriberSettings) (deploymentConfig : DeploymentConfig)
  : W (option error * DeploymentConfig) :=
  deploymentConfig <- describeConfig (kubeClient d) deploymentConfig ;;
  let deploymentName := LatestDeploymentNameForConfig deploymentConfig in
  describeLatestDeployment (kubeClient d) namespace deploymentName ;;
  describeHistory d namespace deploymentConfig deploymentName ;;
  describeEvents (kubeClient d) settings deploymentConfig ;;
  ret (None, deploymentConfig).

(** [(d *DeploymentConfigDescriber) Describe(namespace, name, settings)]:
    the text and the error returned, and the describer after the call.  A
    config the describer was given is the object the printing works on, so
    it is stored back; a config fetched for the call is dropped with it. *)
Definition Describe `{Helpers} (d : DeploymentConfigDescriber) (namespace name : string)
    (settings : DescriberSettings)
  : option (string * option error * DeploymentConfigDescriber) :=
  match config d with
  | Some deploymentConfig =>
      match tabbedString (describeBody d namespace settings deploymentConfig) with
      | Some (text, err, deploymentConfig) =>
          Some (text, err, {| osClient := osClient d;
                              kubeClient := kubeClient d;
                              config := Some deploymentConfig |})
      | None => None
      end
  | None =>
      match DeploymentConfigs_Get (osClient d) namespace name with
      | inr err => Some ("", Some err, d)
      | inl deploymentConfig =>
          match tabbedString (describeBody d namespace settings deploymentConfig) with
          | Some (text, err, _) => Some (text, err, d)
          | None => None
          end
      end
  end.

(** ** [pkg/user/registry/user/etcd] *)

(** [sets.String] of the Kubernetes utilities: a set of strings whose
    [List] returns the members sorted. *)
Module StringSet := MSetList.Make String_as_OT.

Definition sets_NewString (items : list string) : StringSet.t :=
  fold_left (fun s item => StringSet.add item s) items StringSet.empty.

Definition sets_Delete (s : StringSet.t) (items : list string) : StringSet.t :=
  fold_left (fun s item => StringSet.remove item s) items s.

Definition sets_List (s : StringSet.t) : list string := StringSet.elements s.

(** [user.Info], as far as [Get] reads it. *)
Record UserInfo : Type := {
  GetName : string;
  GetGroups : list string
}.

(** [kapi.Context]: what [kapi.UserFrom] finds in it. *)
Record Context : Type := {
  UserFrom : option UserInfo
}.

(** [api.User] *)
Record User : Type := {
  user_Meta : ObjectMeta;
  FullName : string;
  Identities : list string;
  Groups : list string
}.

(** [ObjectMeta{Name: name}] *)
Definition metaNamed (name : string) : ObjectMeta :=
  {| Name := name; Namespace := ""; CreationTimestamp := 0;
     Labels := []; Annotations := [] |}.

(** [&api.User{ObjectMeta: kapi.ObjectMeta{Name: name}, Groups: groups}] *)
Definition virtualUser (name : string) (groups : list string) : User :=
  {| user_Meta := metaNamed name; FullName := ""; Identities := []; Groups := groups |}.

(** The embedded [registry.Store]: the answer of the store to [Get]. *)
Record Store : Type := {
  Store_Get : Context -> string -> option User * option error
}.

Record REST : Type := {
  rest_Store : Store
}.

(** Names of other packages that [Get] uses and whose source is not part
    of this development. *)
Class UserPolicy : Type := {
  ValidateUserName : string -> bool -> bool * string;
  UnauthenticatedGroup : string;
  AuthenticatedGroup : string;
  api_Resource : string -> GroupResource
}.

(** A call of the registry: its result and the names it has looked up in
    the store, in order. *)
Definition Lookup (A : Type) : Type := (A * list string)%type.

Definition storeGet (r : REST) (ctx : Context) (name : string)
  : Lookup (option User * option error) :=
  (Store_Get (rest_Store r) ctx name, [name]).

Definition answer {A} (a : A) : Lookup A := (a, []).

Definition andThen {A B} (m : Lookup A) (k : A -> Lookup B) : Lookup B :=
  let '(a, seen) := m in
  let '(b, seen') := k a in
  (b, (seen ++ seen')%list).

(** [(r *REST) Get(ctx, name)] *)
Definition Get `{UserPolicy} (r : REST) (ctx : Context) (name : string)
  : Lookup (option User * option error) :=
  if String.eqb name "~" then
    match UserFrom ctx with
    | None =>
        answer (None, Some (kerrs_NewForbidden (api_Resource "user") "~"
                              (errors_New "requests to ~ must be authenticated")))
    | Some user =>
        if String.eqb (GetName user) "" then
          answer (None, Some (kerrs_NewForbidden (api_Resource "user") "~"
                                (errors_New "requests to ~ must be authenticated")))
        else
          let name := GetName user in
          let contextGroups := sets_NewString (GetGroups user) in
          let contextGroups :=
            sets_Delete contextGroups [UnauthenticatedGroup; AuthenticatedGroup] in
          if negb (fst (ValidateUserName name false)) then
            answer (Some (virtualUser name (sets_List contextGroups)), None)
          else
            andThen (storeGet r ctx name) (fun '(obj, err) =>
              match err with
              | None => answer (obj, None)
              | Some e =>
                  if negb (IsNotFound e) then answer (None, Some e)
                  else answer (Some (virtualUser name (sets_List contextGroups)), None)
              end)
    end
  else
    let '(ok, details) := ValidateUserName name false in
    if negb ok then
      answer (None, Some (field_Invalid ["metadata"; "name"] name details))
    else storeGet r ctx name.

(** ** Instances for evaluation *)

(** [strings.ToLower] on ASCII text. *)
Definition lowerAscii (c : ascii) : ascii :=
  let n := nat_of_ascii c in
  if ((65 <=? n) && (n <=? 90))%nat then ascii_of_nat (n + 32) else c.

Fixpoint toLowerAscii (s : string) : string :=
  match s with
  | EmptyString => EmptyString
  | String c s' => String (lowerAscii c) (toLowerAscii s')
  end.

(** The value of an annotation, [""] when it is absent. *)
Fixpoint annotationFor (annotations : labelMap) (key : string) : string :=
  match annotations with
  | [] => ""
  | (k, v) :: rest => if String.eqb k key then v else annotationFor rest key
  end.

Definition renderLabels (m : labelMap) : string :=
  match m with
  | [] => "<none>"
  | _ => strings_Join (map (fun kv => fst kv ++ "=" ++ snd kv) m) ","
  end.

Definition parseInt (s : string) : Z :=
  match NilZero.int_of_string s with
  | Some d => Z.of_int d
  | None => -1
  end.

Definition splitTag (nameAndTag : string) : string * string * bool :=
  match strings_Split nameAndTag ":" with
  | [name] => (name, "latest", false)
  | name :: rest =>
      let tag := strings_Join rest ":" in
      (name, if len tag =? 0 then "latest" else tag, true)
  | [] => ("", "latest", false)
  end.

Fixpoint errorText (err : error) : string :=
  match err with
  | errors_New text => text
  | kerrs_NewForbidden res name cause =>
      Resource res ++ " " ++ name ++ " is forbidden: " ++ errorText cause
  | field_Invalid path value detail =>
      strings_Join path "." ++ ": Invalid value: " ++ value ++ ": " ++ detail
  | StatusError _ message => message
  end.

(** Helpers that follow the conventions of the deployment utilities: a
    deployment of config [c] at version [v] is named [c-v] and carries its
    config, version and phase in annotations.  The clock stands at [now];
    ages are rendered in seconds, the tab writer leaves the text as it is. *)
Definition helpersAt (now : Time) : Helpers := {|
  formatMeta := fun m =>
    "Name:" ++ TAB ++ Name m ++ NL ++ "Namespace:" ++ TAB ++ Namespace m ++ NL;
  formatString := fun label v => label ++ ":" ++ TAB ++ v ++ NL;
  formatLabels := renderLabels;
  convertEnv := map (fun e => (env_Name e, env_Value e));
  formatRelativeTime := fun t => FormatInt (now - t) ++ " Seconds";
  strings_ToLower := toLowerAscii;
  tabwriter_Flush := fun text => text;
  DescribePodTemplate := fun t =>
    match t with
    | Some t => "  Images:" ++ TAB ++ strings_Join (template_Images t) "," ++ NL
    | None => "  <unset>" ++ NL
    end;
  DescribeEvents := fun events =>
    strings_Join (map (fun e => event_Reason e ++ TAB ++ event_Message e ++ NL) events) "";
  Error := errorText;
  deployapi_Resource := fun r => {| Group := ""; Resource := r |};
  SplitImageStreamTag := splitTag;
  LatestDeploymentNameForConfig := fun c =>
    Name (dc_Meta c) ++ "-" ++ FormatInt (LatestVersion (dc_Status c));
  DeploymentVersionFor := fun rc =>
    parseInt (annotationFor (Annotations (rc_Meta rc))
                "openshift.io/deployment-config.latest-version");
  DeploymentConfigNameFor := fun rc =>
    annotationFor (Annotations (rc_Meta rc)) "openshift.io/deployment-config.name";
  DeploymentStatusFor := fun rc =>
    annotationFor (Annotations (rc_Meta rc)) "openshift.io/deployment.phase"
|}.

(** A deployment of config [c] at version [v], created at [created]. *)
Definition deploymentOf (c : string) (v : Z) (created : Time) (phase : string)
  : ReplicationController :=
  {| rc_Meta := {| Name := c ++ "-" ++ FormatInt v;
                   Namespace := "test";
                   CreationTimestamp := created;
                   Labels := [];
                   Annotations :=
                     [("openshift.io/deployment-config.name", c);
                      ("openshift.io/deployment-config.latest-version", FormatInt v);
                      ("openshift.io/deployment.phase", phase)] |};
     rc_SpecReplicas := 1;
     rc_SpecSelector := [("deploymentconfig", c)];
     rc_StatusReplicas := 1 |}.

Definition notFound (what : string) : error :=
  StatusError StatusReasonNotFound (what ++ " not found").

(** A cluster that holds the deployments [rcs], the autoscalers [hpas] and
    the events [events], and no pods. *)
Definition clusterOf (rcs : list ReplicationController)
    (hpas : list HorizontalPodAutoscaler) (events : list Event) : KubeClient := {|
  ReplicationControllers_Get := fun _ name =>
    match find (fun rc => String.eqb (Name (rc_Meta rc)) name) rcs with
    | Some rc => inl rc
    | None => inr (notFound name)
    end;
  ReplicationControllers_List := fun _ => inl rcs;
  Pods_List := fun _ _ => inl [];
  Events_Search := fun _ _ => inl (Some events);
  HorizontalPodAutoscalers_List := fun _ => inl hpas
|}.

Definition noConfigs : OsClient :=
  {| DeploymentConfigs_Get := fun _ name => inr (notFound name) |}.

Definition oneConfig (c : DeploymentConfig) : OsClient :=
  {| DeploymentConfigs_Get := fun _ name =>
       if String.eqb name (Name (dc_Meta c)) then inl c else inr (notFound name) |}.

(** A config named [name] at version [latest], with the given triggers and
    strategy. *)
Definition configOf (name : string) (latest : Z)
    (triggers : list DeploymentTriggerPolicy) (strategy : DeploymentStrategy)
  : DeploymentConfig :=
  {| dc_Meta := {| Name := name; Namespace := "test"; CreationTimestamp := 0;
                   Labels := []; Annotations := [] |};
     dc_Spec := {| Strategy := strategy;
                   Triggers := triggers;
                   spec_Replicas := 1;
                   Test := false;
                   spec_Selector := [("deploymentconfig", name)];
                   Template := None |};
     dc_Status := {| LatestVersion := latest; Details := None |} |}.

Definition rollingStrategy : DeploymentStrategy :=
  {| strategy_Type := "Rolling"; CustomParams := None; RecreateParams := None;
     RollingParams := Some {| rolling_Pre := None; rolling_Post := None |} |}.

Definition customStrategy (command : list string) : DeploymentStrategy :=
  {| strategy_Type := "Custom";
     CustomParams := Some {| custom_Image := ""; custom_Environment := [];
                             custom_Command := command |};
     RecreateParams := None; RollingParams := None |}.

(** A describer that fetches its config [c] and sees the deployments
    [rcs]. *)
Definition describerOf (c : DeploymentConfig) (rcs : list ReplicationController)
  : DeploymentConfigDescriber :=
  {| osClient := oneConfig c; kubeClient := clusterOf rcs [] []; config := None |}.

(** Config [app] at version 3 with its deployments 1 (complete), 2
    (failed) and 3 (running), created in that order. *)
Definition app1 : ReplicationController := deploymentOf "app" 1 10 "Complete".
Definition app2 : ReplicationController := deploymentOf "app" 2 20 "Failed".
Definition app3 : ReplicationController := deploymentOf "app" 3 30 "Running".
Definition app4 : ReplicationController := deploymentOf "app" 4 40 "Running".

Definition appAt (latest : Z) : DeploymentConfig := configOf "app" latest [] rollingStrategy.

(** Deployment 1 of [app] created anew after deployment 2. *)
Definition app1Late : ReplicationController := deploymentOf "app" 1 25 "Complete".

Definition eventNo (n : Z) : Event :=
  {| event_Reason := "Scaled"; event_Message := "event " ++ FormatInt n |}.

(** Ten events, the oldest first. *)
Definition tenEvents : list Event := map eventNo [1; 2; 3; 4; 5; 6; 7; 8; 9; 10].

Definition withEvents : DescriberSettings := {| ShowEvents := true |}.

(** A cluster that cannot be reached. *)
Definition unreachableCluster : KubeClient := {|
  ReplicationControllers_Get := fun _ _ => inr (errors_New "connection refused");
  ReplicationControllers_List := fun _ => inr (errors_New "connection refused");
  Pods_List := fun _ _ => inr (errors_New "connection refused");
  Events_Search := fun _ _ => inr (errors_New "connection refused");
  HorizontalPodAutoscalers_List := fun _ => inr (errors_New "connection refused")
|}.

Definition noEvents : DescriberSettings := {| ShowEvents := false |}.

Definition describerWith (os : OsClient) (kc : KubeClient) : DeploymentConfigDescriber :=
  {| osClient := os; kubeClient := kc; config := None |}.

(** An autoscaler of the config [name]. *)
Definition autoscalerOf (name : string) (minReplicas maxReplicas : Z) (cpu : option Z)
  : HorizontalPodAutoscaler :=
  {| ScaleRef := {| scale_Kind := "DeploymentConfig"; scale_Name := name |};
     MinReplicas := Some minReplicas;
     MaxReplicas := maxReplicas;
     CPUUtilization := cpu |}.

Definition configChange : DeploymentTriggerPolicy :=
  {| trigger_Type := DeploymentTriggerOnConfigChange; ImageChangeParams := None |}.

(** An image-change trigger on the image stream tag [from]. *)
Definition imageChange (from : string) (automatic : bool) : DeploymentTriggerPolicy :=
  {| trigger_Type := DeploymentTriggerOnImageChange;
     ImageChangeParams :=
       Some {| Automatic := automatic;
               From := {| ref_Kind := "ImageStreamTag"; ref_Namespace := "";
                          ref_Name := from |} |} |}.

(** A describer that was given its config, as [oc rollback --dry-run]
    does. *)
Definition describerGiven (c : DeploymentConfig) : DeploymentConfigDescriber :=
  {| osClient := noConfigs; kubeClient := clusterOf [] [] []; config := Some c |}.

(** A custom strategy whose command holds a script of two lines. *)
Definition scripted : DeploymentConfig :=
  configOf "app" 0 [] (customStrategy ["sh"; "-c"; "echo a" ++ NL ++ "echo b"]).

(** A user policy for evaluation: names with a colon are not valid user
    names, as those of the system users. *)
Definition policy : UserPolicy := {|
  ValidateUserName := fun name _ =>
    if strings_Contains name ":" then (false, "may not contain a colon")
    else if String.eqb name "~" then (false, "may not equal ~")
    else (true, "");
  UnauthenticatedGroup := "system:unauthenticated";
  AuthenticatedGroup := "system:authenticated";
  api_Resource := fun r => {| Group := ""; Resource := r |}
|}.

Definition storedUser (name : string) : User :=
  {| user_Meta := metaNamed name; FullName := "Stored " ++ name;
     Identities := ["ldap:" ++ name]; Groups := [] |}.

(** A store that holds the user [alice] and times out on [carol]. *)
Definition store : REST := {|
  rest_Store := {|
    Store_Get := fun _ name =>
      if String.eqb name "alice" then (Some (storedUser "alice"), None)
      else if String.eqb name "carol" then (None, Some (errors_New "etcd timeout"))
      else (None, Some (notFound name))
  |}
|}.

Definition contextOf (name : string) (groups : list string) : Context :=
  {| UserFrom := Some {| GetName := name; GetGroups := groups |} |}.

Definition anonymous : Context := {| UserFrom := None |}.

(** A cluster that holds the deployments [rcs] and the pods [pods]. *)
Definition clusterWithPods (rcs : list ReplicationController) (pods : list Pod)
  : KubeClient := {|
  ReplicationControllers_Get := ReplicationControllers_Get (clusterOf rcs [] []);
  ReplicationControllers_List := ReplicationControllers_List (clusterOf rcs [] []);
  Pods_List := fun _ _ => inl pods;
  Events_Search := Events_Search (clusterOf rcs [] []);
  HorizontalPodAutoscalers_List := HorizontalPodAutoscalers_List (clusterOf rcs [] [])
|}.

(** A cluster that holds the deployments [rcs] and whose pods cannot be
    listed. *)
Definition clusterWithoutPods (rcs : list ReplicationController) : KubeClient := {|
  ReplicationControllers_Get := ReplicationControllers_Get (clusterOf rcs [] []);
  ReplicationControllers_List := ReplicationControllers_List (clusterOf rcs [] []);
  Pods_List := fun _ _ => inr (errors_New "pods are forbidden");
  Events_Search := Events_Search (clusterOf rcs [] []);
  HorizontalPodAutoscalers_List := HorizontalPodAutoscalers_List (clusterOf rcs [] [])
|}.

Definition podIn (phase : string) : Pod := {| pod_Phase := phase |}.

(** Five pods, one of them in a phase that is not counted. *)
Definition fivePods : list Pod :=
  [podIn PodRunning; podIn "Unknown"; podIn PodFailed; podIn PodRunning; podIn PodPending].

(** An autoscaler of the replication controller [name], without a
    minimum. *)
Definition controllerAutoscaler (name : string) : HorizontalPodAutoscaler :=
  {| ScaleRef := {| scale_Kind := "ReplicationController"; scale_Name := name |};
     MinReplicas := None; MaxReplicas := 3; CPUUtilization := None |}.

(** A recreate strategy whose pre hook runs [command] in a new pod. *)
Definition recreateWithHook (command : list string) : DeploymentStrategy :=
  {| strategy_Type := "Recreate"; CustomParams := None;
     RecreateParams :=
       Some {| recreate_Pre :=
                 Some {| FailurePolicy := "Abort";
                         ExecNewPod := Some {| exec_Command := command; exec_Env := [];
                                               exec_ContainerName := "app" |};
                         TagImages := [] |};
               recreate_Mid := None;
               recreate_Post := None |};
     RollingParams := None |}.

(** A hook that tags the image of container [web]. *)
Definition tagHook : LifecycleHook :=
  {| FailurePolicy := "Ignore"; ExecNewPod := None;
     TagImages := [{| tag_ContainerName := "web";
                      tag_To := {| ref_Kind := "ImageStreamTag"; ref_Namespace := "prod";
                                   ref_Name := "web:stable" |} |}] |}.

(** ** Vocabulary of the statements *)

(** [m] does not panic, returns [a] and appends [text] to the writer,
    whatever has been written before. *)
Definition writes {A} (m : W A) (a : A) (text : string) : Prop :=
  forall out, m out = Some (a, out ++ text).

(** [a] may stand before [b] in a slice sorted by [less]. *)
Definition notAfter {A} (less : A -> A -> bool) (a b : A) : Prop := less b a = false.

(** [m] does not panic, whatever has been written before. *)
Definition runs {A} (m : W A) : Prop := exists a text, writes m a text.

(** The deployments that the history of [Describe] looks for: those of the
    config, the latest one apart. *)
Definition isPrior `{Helpers} (deploymentConfig : DeploymentConfig)
    (deploymentName : string) (item : ReplicationController) : bool :=
  negb (String.eqb (Name (rc_Meta item)) deploymentName)
  && String.eqb (Name (dc_Meta deploymentConfig)) (DeploymentConfigNameFor item).

(** The block of a prior deployment, as [printDeploymentRc] writes it when
    not verbose. *)
Definition terseBlock `{Helpers} (item : ReplicationController) : string :=
  "Deployment #" ++ FormatInt (DeploymentVersionFor item) ++ ":" ++ NL
  ++ TAB ++ "Created:" ++ TAB
  ++ strings_ToLower (formatRelativeTime (CreationTimestamp (rc_Meta item)))
  ++ " ago" ++ NL
  ++ TAB ++ "Status:" ++ TAB ++ DeploymentStatusFor item ++ NL
  ++ TAB ++ "Replicas:" ++ TAB ++ FormatInt (rc_StatusReplicas item)
  ++ " current / " ++ FormatInt (rc_SpecReplicas item) ++ " desired" ++ NL.

(** [a] stands before [b] when sorted descending by version, then by
    creation timestamp, then by name. *)
Definition byVersion `{Helpers} (a b : ReplicationController) : Prop :=
  DeploymentVersionFor a > DeploymentVersionFor b
  \/ (DeploymentVersionFor a = DeploymentVersionFor b
      /\ (CreationTimestamp (rc_Meta a) > CreationTimestamp (rc_Meta b)
          \/ (CreationTimestamp (rc_Meta a) = CreationTimestamp (rc_Meta b)
              /\ String.ltb (Name (rc_Meta b)) (Name (rc_Meta a)) = true))).

(** [a] stands before [b] when sorted descending by creation timestamp,
    then by name. *)
Definition byCreation (a b : ReplicationController) : Prop :=
  CreationTimestamp (rc_Meta a) > CreationTimestamp (rc_Meta b)
  \/ (CreationTimestamp (rc_Meta a) = CreationTimestamp (rc_Meta b)
      /\ String.ltb (Name (rc_Meta b)) (Name (rc_Meta a)) = true).

Definition rcName (rc : ReplicationController) : string := Name (rc_Meta rc).

(** The text of the blocks of the deployments [shown], in order. *)
Fixpoint historyText `{Helpers} (shown : list ReplicationController) : string :=
  match shown with
  | [] => ""
  | item :: rest => terseBlock item ++ historyText rest
  end.

(** The order in which [Describe] sorts the deployments it has listed. *)
Definition sortedHistory (items : list ReplicationController) : list ReplicationController :=
  sort_Sort (sort_Reverse OverlappingControllers_Less) items.

(** [m] only appends to the writer. *)
Definition appends {A} (m : W A) : Prop :=
  forall out a out', m out = Some (a, out') -> exists text, out' = out ++ text.

(** [deploymentConfig] is the config that [Describe] renders: the one the
    describer was given or else the one it fetches. *)
Definition described (d : DeploymentConfigDescriber) (namespace name : string)
    (deploymentConfig : DeploymentConfig) : Prop :=
  match config d with
  | Some given => given = deploymentConfig
  | None => DeploymentConfigs_Get (osClient d) namespace name = inl deploymentConfig
  end.

(** The value of the "Latest Version" line. *)
Definition versionText (deploymentConfig : DeploymentConfig) : string :=
  if LatestVersion (dc_Status deploymentConfig) =? 0 then "Not deployed"
  else FormatInt (LatestVersion (dc_Status deploymentConfig)).

(** The label of an image-change trigger with the parameters [p]. *)
Definition imageLabel `{Helpers} (p : DeploymentTriggerImageChangeParams) : string :=
  let '(name, tag, _) := SplitImageStreamTag (ref_Name (From p)) in
  "Image(" ++ name ++ "@" ++ tag ++ ", auto=" ++ FormatBool (Automatic p) ++ ")".

(** The labels that a trigger adds to the summary, as the code has it: an
    image-change trigger without a reference name adds none, and neither
    does a trigger of another type. *)
Definition triggerLabel `{Helpers} (t : DeploymentTriggerPolicy) : list string :=
  if String.eqb (trigger_Type t) DeploymentTriggerOnConfigChange then ["Config"]
  else if String.eqb (trigger_Type t) DeploymentTriggerOnImageChange then
    match ImageChangeParams t with
    | Some p => if 0 <? len (ref_Name (From p)) then [imageLabel p] else []
    | None => []
    end
  else [].

(** The trigger summary in the words of the spec: every trigger has a
    label, "Config" or that of its image change; no list renders as
    "<none>". *)
Definition claimedTriggerLabel `{Helpers} (t : DeploymentTriggerPolicy) : option string :=
  if String.eqb (trigger_Type t) DeploymentTriggerOnConfigChange then Some "Config"
  else if String.eqb (trigger_Type t) DeploymentTriggerOnImageChange then
    option_map imageLabel (ImageChangeParams t)
  else None.

Fixpoint claimedTriggerLabels `{Helpers} (triggers : list DeploymentTriggerPolicy)
  : option (list string) :=
  match triggers with
  | [] => Some []
  | t :: rest =>
      match claimedTriggerLabel t, claimedTriggerLabels rest with
      | Some l, Some ls => Some (l :: ls)
      | _, _ => None
      end
  end.

Definition claimedTriggerSummary `{Helpers} (triggers : list DeploymentTriggerPolicy)
  : option string :=
  match triggers with
  | [] => Some "<none>"
  | _ => option_map (fun labels => strings_Join labels ", ") (claimedTriggerLabels triggers)
  end.

(** An image-change trigger carries its parameters. *)
Definition hasParams (t : DeploymentTriggerPolicy) : Prop :=
  trigger_Type t = DeploymentTriggerOnImageChange -> ImageChangeParams t <> None.

(** The groups of the virtual user that [Get] makes up for [user]. *)
Definition virtualGroups `{UserPolicy} (user : UserInfo) : list string :=
  sets_List (sets_Delete (sets_NewString (GetGroups user))
               [UnauthenticatedGroup; AuthenticatedGroup]).

(** What the printing of a config relies on, and validation of configs and
    defaulting of autoscalers provide: an image-change trigger has its
    parameters, a hook that runs a pod has a command, and the autoscaler
    that is printed has its minimum set. *)
Definition hookRuns (hook : option LifecycleHook) : Prop :=
  forall h e, hook = Some h -> ExecNewPod h = Some e -> exec_Command e <> [].

Definition strategyRuns (strategy : DeploymentStrategy) : Prop :=
  (forall p, RecreateParams strategy = Some p ->
             hookRuns (recreate_Pre p) /\ hookRuns (recreate_Mid p)
             /\ hookRuns (recreate_Post p))
  /\ (forall p, RollingParams strategy = Some p ->
                hookRuns (rolling_Pre p) /\ hookRuns (rolling_Post p)).

Definition autoscalersRun (res : GroupResource) (namespace name : string)
    (kc : KubeClient) : Prop :=
  forall items hpa rest,
    HorizontalPodAutoscalers_List kc namespace = inl items ->
    filter (scales res name) items = hpa :: rest ->
    MinReplicas hpa <> None.

Definition wellFormed `{Helpers} (kc : KubeClient) (dc : DeploymentConfig) : Prop :=
  Forall hasParams (Triggers (dc_Spec dc))
  /\ strategyRuns (Strategy (dc_Spec dc))
  /\ autoscalersRun (deployapi_Resource "DeploymentConfig")
       (Namespace (dc_Meta dc)) (Name (dc_Meta dc)) kc.

(** [s] holds no newline. *)
Definition oneLine (s : string) : Prop := strings_Contains s NL = false.

(** ** Vocabulary of the further statements *)

(** The number of [pods] in [phase]. *)
Definition podsIn (phase : string) (pods : list Pod) : Z :=
  lenL (filter (fun pod => String.eqb (pod_Phase pod) phase) pods).

(** The block of the latest deployment up to its labels, as
    [printDeploymentRc] writes it when verbose. *)
Definition verboseBlock `{Helpers} (deployment : ReplicationController) : string :=
  "Deployment #" ++ FormatInt (DeploymentVersionFor deployment) ++ " (latest):" ++ NL
  ++ TAB ++ "Name:" ++ TAB ++ Name (rc_Meta deployment) ++ NL
  ++ TAB ++ "Created:" ++ TAB
  ++ strings_ToLower (formatRelativeTime (CreationTimestamp (rc_Meta deployment)))
  ++ " ago" ++ NL
  ++ TAB ++ "Status:" ++ TAB ++ DeploymentStatusFor deployment ++ NL
  ++ TAB ++ "Replicas:" ++ TAB ++ FormatInt (rc_StatusReplicas deployment)
  ++ " current / " ++ FormatInt (rc_SpecReplicas deployment) ++ " desired" ++ NL
  ++ TAB ++ "Selector:" ++ TAB ++ formatLabels (rc_SpecSelector deployment) ++ NL
  ++ TAB ++ "Labels:" ++ TAB ++ formatLabels (Labels (rc_Meta deployment)) ++ NL.

(** The line of the pod counts. *)
Definition podsLine (pods : list Pod) : string :=
  TAB ++ "Pods Status:" ++ TAB ++ FormatInt (podsIn PodRunning pods) ++ " Running / "
  ++ FormatInt (podsIn PodPending pods) ++ " Waiting / "
  ++ FormatInt (podsIn PodSucceeded pods) ++ " Succeeded / "
  ++ FormatInt (podsIn PodFailed pods) ++ " Failed" ++ NL.

(** [m] panics, whatever has been written before. *)
Definition panics {A} (m : W A) : Prop := forall out, m out = None.

(** The lines that [printStrategy] writes for the custom parameters [p]. *)
Definition customLines `{Helpers} (indent : string) (p : CustomDeploymentStrategyParams)
  : string :=
  indent ++ "Image:" ++ TAB
  ++ (if len (custom_Image p) =? 0 then "<default>" else custom_Image p) ++ NL
  ++ (match custom_Environment p with
      | [] => ""
      | env => indent ++ "Environment:" ++ TAB ++ formatLabels (convertEnv env) ++ NL
      end)
  ++ (match custom_Command p with
      | [] => ""
      | command =>
          indent ++ "Command:" ++ TAB
          ++ strings_Join (map (reflow (TAB ++ "  ")) command) " " ++ NL
      end).

(** A hook that runs a pod without a command. *)
Definition hookBroken (hook : option LifecycleHook) : Prop :=
  exists h e, hook = Some h /\ ExecNewPod h = Some e /\ exec_Command e = [].

(** An image-change trigger without parameters. *)
Definition triggerBroken (t : DeploymentTriggerPolicy) : Prop :=
  trigger_Type t = DeploymentTriggerOnImageChange /\ ImageChangeParams t = None.



(** [m] returns [a] whenever it returns. *)
Definition yields {A} (m : W A) (a : A) : Prop :=
  forall out b out', m out = Some (b, out') -> b = a.

(** The line of one image tagged by a hook. *)
Definition tagLine (indent : string) (image : TagImageHook) : string :=
  indent ++ "  Tag:" ++ TAB ++ "container " ++ tag_ContainerName image
  ++ " to " ++ ref_Kind (tag_To image) ++ " " ++ ref_Name (tag_To image)
  ++ " " ++ ref_Namespace (tag_To image) ++ NL.

Fixpoint tagLines (indent : string) (images : list TagImageHook) : string :=
  match images with
  | [] => ""
  | image :: rest => tagLine indent image ++ tagLines indent rest
  end.

(** The config as [Describe] leaves it: every token of the commands of its
    custom parameters and of its hooks reflowed. *)
Definition reflowCommand (command : list string) : list string :=
  map (reflow (TAB ++ "  ")) command.

Definition reflowHook (hook : option LifecycleHook) : option LifecycleHook :=
  option_map
    (fun h =>
       {| FailurePolicy := FailurePolicy h;
          ExecNewPod :=
            option_map
              (fun e => {| exec_Command := reflowCommand (exec_Command e);
                           exec_Env := exec_Env e;
                           exec_ContainerName := exec_ContainerName e |})
              (ExecNewPod h);
          TagImages := TagImages h |})
    hook.

Definition reflowStrategy (strategy : DeploymentStrategy) : DeploymentStrategy :=
  {| strategy_Type := strategy_Type strategy;
     CustomParams :=
       option_map
         (fun p => {| custom_Image := custom_Image p;
                      custom_Environment := custom_Environment p;
                      custom_Command := reflowCommand (custom_Command p) |})
         (CustomParams strategy);
     RecreateParams :=
       option_map
         (fun p => {| recreate_Pre := reflowHook (recreate_Pre p);
                      recreate_Mid := reflowHook (recreate_Mid p);
                      recreate_Post := reflowHook (recreate_Post p) |})
         (RecreateParams strategy);
     RollingParams :=
       option_map
         (fun p => {| rolling_Pre := reflowHook (rolling_Pre p);
                      rolling_Post := reflowHook (rolling_Post p) |})
         (RollingParams strategy) |}.

Definition reflowConfig (dc : DeploymentConfig) : DeploymentConfig :=
  {| dc_Meta := dc_Meta dc;
     dc_Spec := {| Strategy := reflowStrategy (Strategy (dc_Spec dc));
                   Triggers := Triggers (dc_Spec dc);
                   spec_Replicas := spec_Replicas (dc_Spec dc);
                   Test := Test (dc_Spec dc);
                   spec_Selector := spec_Selector (dc_Spec dc);
                   Template := Template (dc_Spec dc) |};
     dc_Status := dc_Status dc |}.

(** ** Strings *)

Lemma append_assoc (a b c : string) : (a ++ b) ++ c = a ++ (b ++ c).
Proof. induction a as [|x a IH]; simpl; [reflexivity | now rewrite IH]. Qed.

Lemma append_nil_r (a : string) : a ++ "" = a.
Proof. induction a as [|x a IH]; simpl; [reflexivity | now rewrite IH]. Qed.

Lemma compare_refl (s : string) : String.compare s s = Eq.
Proof.
  induction s as [|c s IH]; simpl; [reflexivity|].
  unfold Ascii.compare. now rewrite N.compare_refl.
Qed.

Lemma compare_lt_trans (a b c : string) :
  String.compare a b = Lt -> String.compare b c = Lt -> String.compare a c = Lt.
Proof.
  revert b c. induction a as [|x a IH]; intros [|y b] [|z c]; simpl; try congruence.
  unfold Ascii.compare.
  destruct (N.compare_spec (N_of_ascii x) (N_of_ascii y)) as [Exy|Lxy|Gxy]; try congruence;
    destruct (N.compare_spec (N_of_ascii y) (N_of_ascii z)) as [Eyz|Lyz|Gyz]; try congruence;
    intros Hab Hbc.
  - rewrite Exy, Eyz, N.compare_refl. eauto.
  - rewrite Exy. now apply N.compare_lt_iff in Lyz as ->.
  - rewrite <- Eyz. now apply N.compare_lt_iff in Lxy as ->.
  - assert (N_of_ascii x < N_of_ascii z)%N as L by lia.
    now apply N.compare_lt_iff in L as ->.
Qed.

Lemma ltb_irrefl (s : string) : String.ltb s s = false.
Proof. unfold String.ltb. now rewrite compare_refl. Qed.

Lemma ltb_trans (a b c : string) :
  String.ltb a b = true -> String.ltb b c = true -> String.ltb a c = true.
Proof.
  unfold String.ltb. intros Hab Hbc.
  destruct (String.compare a b) eqn:Eab; try discriminate.
  destruct (String.compare b c) eqn:Ebc; try discriminate.
  now rewrite (compare_lt_trans _ _ _ Eab Ebc).
Qed.

Lemma ltb_total (a b : string) :
  String.ltb a b = true \/ a = b \/ String.ltb b a = true.
Proof.
  unfold String.ltb. rewrite (String.compare_antisym a b).
  destruct (String.compare b a) eqn:E; simpl; auto.
  right; left. symmetry. now apply String.compare_eq_iff.
Qed.

(** ** The writer monad *)

Lemma writes_ret {A} (a : A) : writes (ret a) a "".
Proof. intros out. unfold ret. now rewrite append_nil_r. Qed.

Lemma writes_Fprint (s : string) : writes (Fprint s) tt s.
Proof. intros out. reflexivity. Qed.

Lemma writes_bind {A B} (m : W A) (k : A -> W B) a b t u :
  writes m a t -> writes (k a) b u -> writes (bind m k) b (t ++ u).
Proof.
  intros Hm Hk out. unfold bind. rewrite Hm, Hk. now rewrite append_assoc.
Qed.

Lemma writes_when (b : bool) (m : W unit) t :
  writes m tt t -> writes (when b m) tt (if b then t else "").
Proof. destruct b; simpl; [trivial | intros _; apply writes_ret]. Qed.

Lemma writes_eq {A} (m : W A) a t u : writes m a t -> t = u -> writes m a u.
Proof. now intros H <-. Qed.

Lemma writes_fun {A} (m : W A) a b t u :
  writes m a t -> writes m b u -> a = b /\ t = u.
Proof.
  intros Ha Hb. specialize (Ha ""). rewrite (Hb "") in Ha.
  simpl in Ha. now inversion Ha.
Qed.

(** ** [sort.Sort] *)

Section SortFacts.
Context {A : Type}.
Variable less : A -> A -> bool.

Hypothesis less_asym : forall a b, less a b = true -> less b a = false.
Hypothesis notAfter_trans :
  forall a b c, notAfter less a b -> notAfter less b c -> notAfter less a c.

Lemma sort_insert_perm (x : A) (l : list A) : Permutation (sort_insert less x l) (x :: l).
Proof.
  induction l as [|y t IH]; simpl; [reflexivity|].
  destruct (less y x); [|reflexivity].
  rewrite IH. apply perm_swap.
Qed.

Lemma sort_Sort_perm (l : list A) : Permutation (sort_Sort less l) l.
Proof.
  induction l as [|x t IH]; simpl; [reflexivity|].
  rewrite sort_insert_perm. now constructor.
Qed.

Lemma sort_insert_sorted (x : A) (l : list A) :
  StronglySorted (notAfter less) l -> StronglySorted (notAfter less) (sort_insert less x l).
Proof.
  induction 1 as [|y t Ht IH Hy]; simpl.
  - repeat constructor.
  - destruct (less y x) eqn:E.
    + constructor; [exact IH|].
      eapply Permutation_Forall.
      * symmetry. apply sort_insert_perm.
      * constructor; [now apply less_asym | exact Hy].
    + constructor; [now constructor|].
      constructor; [exact E|].
      apply Forall_impl with (2 := Hy). intros z Hz.
      now apply notAfter_trans with y.
Qed.

Lemma sort_Sort_sorted (l : list A) : StronglySorted (notAfter less) (sort_Sort less l).
Proof.
  induction l as [|x t IH]; simpl; [constructor | now apply sort_insert_sorted].
Qed.
End SortFacts.

Lemma In_firstn {A} (n : nat) (l : list A) (y : A) : In y (firstn n l) -> In y l.
Proof.
  revert l. induction n as [|n IH]; intros [|x t]; simpl; try tauto.
  intros [<-|Hy]; auto.
Qed.

Section SortedLists.
Context {A : Type}.
Variable R : A -> A -> Prop.

Lemma StronglySorted_filter (f : A -> bool) (l : list A) :
  StronglySorted R l -> StronglySorted R (filter f l).
Proof.
  induction 1 as [|x t Ht IH Hx]; simpl; [constructor|].
  destruct (f x); [|exact IH].
  constructor; [exact IH|].
  rewrite Forall_forall in *. intros y Hy. apply Hx.
  now apply filter_In in Hy.
Qed.

Lemma StronglySorted_firstn (n : nat) (l : list A) :
  StronglySorted R l -> StronglySorted R (firstn n l).
Proof.
  intros H. revert n. induction H as [|x t Ht IH Hx]; intros [|n]; simpl; try constructor.
  - apply IH.
  - rewrite Forall_forall in *. intros y Hy. apply Hx.
    exact (In_firstn _ _ _ Hy).
Qed.
End SortedLists.

Lemma Permutation_filter {A} (f : A -> bool) (l l' : list A) :
  Permutation l l' -> Permutation (filter f l) (filter f l').
Proof.
  induction 1 as [|x l l' _ IH|x y l|l l' l'' _ IH1 _ IH2]; simpl.
  - constructor.
  - destruct (f x); [now constructor | exact IH].
  - destruct (f x), (f y); try reflexivity. apply perm_swap.
  - now transitivity (filter f l').
Qed.

(** ** The order of [OverlappingControllers] *)

Lemma Less_false_iff (a b : ReplicationController) :
  OverlappingControllers_Less a b = false <->
  CreationTimestamp (rc_Meta a) > CreationTimestamp (rc_Meta b)
  \/ (CreationTimestamp (rc_Meta a) = CreationTimestamp (rc_Meta b)
      /\ String.ltb (rcName a) (rcName b) = false).
Proof.
  unfold OverlappingControllers_Less, rcName.
  destruct (Z.eqb_spec (CreationTimestamp (rc_Meta a)) (CreationTimestamp (rc_Meta b))) as [E|N].
  - split; [intros ->; right; auto | intros [G|[_ L]]; [lia | exact L]].
  - rewrite Z.ltb_ge. split; [intros G; left; lia | intros [G|[E _]]; [lia | contradiction]].
Qed.

Lemma Reverse_asym (a b : ReplicationController) :
  sort_Reverse OverlappingControllers_Less a b = true ->
  sort_Reverse OverlappingControllers_Less b a = false.
Proof.
  unfold sort_Reverse. intros L. apply Less_false_iff.
  unfold OverlappingControllers_Less in L. fold (rcName a) (rcName b) in *.
  destruct (Z.eqb_spec (CreationTimestamp (rc_Meta b)) (CreationTimestamp (rc_Meta a))) as [E|N].
  - right. split; [now symmetry|].
    destruct (String.ltb (rcName a) (rcName b)) eqn:L'; [|reflexivity].
    pose proof (ltb_trans _ _ _ L L') as X. now rewrite ltb_irrefl in X.
  - left. apply Z.ltb_lt in L. lia.
Qed.

Lemma ltb_false_trans (a b c : string) :
  String.ltb a b = false -> String.ltb b c = false -> String.ltb a c = false.
Proof.
  intros Hab Hbc. destruct (String.ltb a c) eqn:Hac; [|reflexivity].
  destruct (ltb_total a b) as [L|[E|L]].
  - congruence.
  - subst b. congruence.
  - rewrite (ltb_trans _ _ _ L Hac) in Hbc. discriminate.
Qed.

Lemma Reverse_notAfter_trans (a b c : ReplicationController) :
  notAfter (sort_Reverse OverlappingControllers_Less) a b ->
  notAfter (sort_Reverse OverlappingControllers_Less) b c ->
  notAfter (sort_Reverse OverlappingControllers_Less) a c.
Proof.
  unfold notAfter, sort_Reverse. rewrite !Less_false_iff.
  intros [G1|[E1 L1]] [G2|[E2 L2]]; try (left; lia).
  right. split; [congruence | now apply ltb_false_trans with (rcName b)].
Qed.

Lemma sortedHistory_perm (items : list ReplicationController) :
  Permutation (sortedHistory items) items.
Proof. apply sort_Sort_perm. Qed.

Lemma sortedHistory_sorted (items : list ReplicationController) :
  StronglySorted (notAfter (sort_Reverse OverlappingControllers_Less)) (sortedHistory items).
Proof.
  apply sort_Sort_sorted; [exact Reverse_asym | exact Reverse_notAfter_trans].
Qed.

Lemma notAfter_byCreation (a b : ReplicationController) :
  notAfter (sort_Reverse OverlappingControllers_Less) a b ->
  rcName a <> rcName b -> byCreation a b.
Proof.
  unfold notAfter, sort_Reverse, byCreation. rewrite Less_false_iff.
  intros [G|[E L]] N; [now left | right]. split; [exact E|].
  fold (rcName a) (rcName b).
  destruct (ltb_total (rcName a) (rcName b)) as [L'|[E'|L']]; congruence.
Qed.

(** A sorted slice of deployments with distinct names descends strictly. *)
Lemma sorted_byCreation (l : list ReplicationController) :
  StronglySorted (notAfter (sort_Reverse OverlappingControllers_Less)) l ->
  NoDup (map rcName l) -> StronglySorted byCreation l.
Proof.
  induction 1 as [|x t Ht IH Hx]; simpl; intros Hnd; [constructor|].
  inversion Hnd as [|? ? Hnotin Hnd']; subst.
  constructor; [now apply IH|].
  rewrite Forall_forall in *. intros y Hy.
  apply notAfter_byCreation; [now apply Hx|].
  intros E. apply Hnotin. rewrite E. now apply in_map.
Qed.

Lemma NoDup_map_filter {A B} (g : A -> B) (f : A -> bool) (l : list A) :
  NoDup (map g l) -> NoDup (map g (filter f l)).
Proof.
  induction l as [|x t IH]; simpl; intros H; [constructor|].
  inversion H as [|? ? Hnotin H']; subst.
  destruct (f x); simpl; [|now apply IH].
  constructor; [|now apply IH].
  intros Hin. apply Hnotin. apply in_map_iff in Hin as [y [<- Hy]].
  apply in_map. now apply filter_In in Hy.
Qed.

Lemma NoDup_map_firstn {A B} (g : A -> B) (n : nat) (l : list A) :
  NoDup (map g l) -> NoDup (map g (firstn n l)).
Proof.
  revert l. induction n as [|n IH]; intros [|x t]; simpl; intros H; try constructor;
    inversion H as [|? ? Hnotin H']; subst.
  - intros Hin. apply Hnotin. apply in_map_iff in Hin as [y [<- Hy]].
    apply in_map. exact (In_firstn _ _ _ Hy).
  - now apply IH.
Qed.

(** ** The deployment history *)

Section History.
Context `{Helpers}.
Variable kc : KubeClient.
Variable deploymentConfig : DeploymentConfig.
Variable deploymentName : string.

Lemma printDeploymentRc_terse (item : ReplicationController) :
  writes (printDeploymentRc item kc
            ("Deployment #" ++ FormatInt (DeploymentVersionFor item)) false)
         None (terseBlock item).
Proof.
  intros out. unfold printDeploymentRc, terseBlock, bind, when, Fprint, ret.
  cbn. f_equal. f_equal. rewrite !append_assoc. cbn. rewrite ?append_assoc. reflexivity.
Qed.

Lemma historyLoop_writes (sorted : list ReplicationController) (counter : Z) :
  counter < maxDisplayDeployments ->
  let shown := firstn (Z.to_nat (maxDisplayDeployments - counter))
                 (filter (isPrior deploymentConfig deploymentName) sorted) in
  writes (historyLoop kc deploymentConfig deploymentName sorted counter)
         shown (historyText shown).
Proof.
  revert counter. induction sorted as [|item rest IH]; intros counter Hc; cbn zeta.
  - cbn [filter]. rewrite firstn_nil. apply writes_ret.
  - intros out. cbn [historyLoop filter].
    destruct (isPrior deploymentConfig deploymentName item) eqn:E;
      unfold isPrior in E; unfold bind; rewrite E.
    + rewrite (printDeploymentRc_terse item out). unfold ret at 1.
      replace (Z.to_nat (maxDisplayDeployments - counter))
        with (S (Z.to_nat (maxDisplayDeployments - (counter + 1)))) by lia.
      cbn [firstn historyText].
      destruct (Z.eqb_spec (counter + 1) maxDisplayDeployments) as [E3|N3].
      * replace (Z.to_nat (maxDisplayDeployments - (counter + 1))) with O by lia.
        unfold ret. cbn [firstn historyText]. now rewrite append_nil_r.
      * rewrite (IH (counter + 1)) by lia. unfold ret.
        now rewrite append_assoc.
    + unfold ret at 1.
      destruct (Z.eqb_spec counter maxDisplayDeployments) as [E3|N3]; [lia|].
      rewrite (IH counter Hc). reflexivity.
Qed.
End History.

Lemma describeHistory_writes `{Helpers} (d : DeploymentConfigDescriber) (namespace : string)
    (deploymentConfig : DeploymentConfig) (deploymentName : string) :
  let shown :=
    match config d, ReplicationControllers_List (kubeClient d) namespace with
    | None, inl items =>
        firstn 2 (filter (isPrior deploymentConfig deploymentName) (sortedHistory items))
    | _, _ => []
    end in
  writes (describeHistory d namespace deploymentConfig deploymentName)
         shown (historyText shown).
Proof.
  unfold describeHistory.
  destruct (config d); [apply writes_ret|].
  destruct (ReplicationControllers_List _ _) as [items|err]; [|apply writes_ret].
  apply (historyLoop_writes (kubeClient d) deploymentConfig deploymentName
           (sortedHistory items) 1).
  unfold maxDisplayDeployments. lia.
Qed.

Lemma byCreation_asym (a b : ReplicationController) : byCreation a b -> ~ byCreation b a.
Proof.
  unfold byCreation. intros [G|[E L]] [G'|[E' L']]; try lia.
  pose proof (ltb_trans _ _ _ L L') as X. now rewrite ltb_irrefl in X.
Qed.

(** ** Claims about the deployment history *)

(** C1 (amended): the prior deployments that the config-level summary
    renders stand sorted descending by creation timestamp and, for equal
    timestamps, descending by name; the version is no sort key.  As the
    listed deployments have distinct names, the order is strict: no two
    rendered deployments tie. *)
Theorem history_sorted_by_creation `{Helpers} (d : DeploymentConfigDescriber)
    (namespace : string) (deploymentConfig : DeploymentConfig) (deploymentName : string) :
  (forall items, ReplicationControllers_List (kubeClient d) namespace = inl items ->
                 NoDup (map rcName items)) ->
  exists shown,
    writes (describeHistory d namespace deploymentConfig deploymentName)
           shown (historyText shown)
    /\ StronglySorted byCreation shown
    /\ (forall a b, byCreation a b -> ~ byCreation b a).
Proof.
  intros Hnames. eexists. split; [apply describeHistory_writes|].
  split; [|exact byCreation_asym].
  destruct (config d); [constructor|].
  destruct (ReplicationControllers_List _ _) as [items|err] eqn:E; [|constructor].
  apply sorted_byCreation.
  - apply StronglySorted_firstn, StronglySorted_filter, sortedHistory_sorted.
  - apply NoDup_map_firstn, NoDup_map_filter.
    eapply Permutation_NoDup; [|exact (Hnames items eq_refl)].
    apply Permutation_map. symmetry. apply sortedHistory_perm.
Qed.

(** C2 (amended): the history holds at most two prior deployments, the
    latest deployment counting as the first of [maxDisplayDeployments];
    when the describer fetches its config and lists the deployments, it
    renders the first two prior deployments of the sorted list, hence
    exactly two when the config has at least two; with deployments [v1],
    [v2] and the latest [v3], [v2] created after [v1], it renders [v2] then
    [v1]. *)
Theorem history_truncated `{Helpers} (d : DeploymentConfigDescriber)
    (namespace : string) (deploymentConfig : DeploymentConfig) (deploymentName : string) :
  exists shown,
    writes (describeHistory d namespace deploymentConfig deploymentName)
           shown (historyText shown)
    /\ lenL shown <= maxDisplayDeployments - 1
    /\ (forall items,
          config d = None ->
          ReplicationControllers_List (kubeClient d) namespace = inl items ->
          shown = firstn 2 (filter (isPrior deploymentConfig deploymentName)
                              (sortedHistory items))
          /\ lenL shown
             = Z.min 2 (lenL (filter (isPrior deploymentConfig deploymentName) items))
          /\ (forall v1 v2 v3,
                Permutation items [v1; v2; v3] ->
                isPrior deploymentConfig deploymentName v1 = true ->
                isPrior deploymentConfig deploymentName v2 = true ->
                isPrior deploymentConfig deploymentName v3 = false ->
                CreationTimestamp (rc_Meta v1) < CreationTimestamp (rc_Meta v2) ->
                shown = [v2; v1])).
Proof.
  eexists. split; [apply describeHistory_writes|]. split.
  - destruct (config d); [cbn; lia|].
    destruct (ReplicationControllers_List _ _); [|cbn; lia].
    unfold lenL, maxDisplayDeployments. rewrite length_firstn. lia.
  - intros items -> ->. split; [reflexivity|].
    assert (Permutation (filter (isPrior deploymentConfig deploymentName) (sortedHistory items))
              (filter (isPrior deploymentConfig deploymentName) items)) as P
      by apply Permutation_filter, sortedHistory_perm.
    split.
    + unfold lenL. rewrite length_firstn, (Permutation_length P). lia.
    + intros v1 v2 v3 Pitems P1 P2 P3 Hts.
      assert (Permutation [v1; v2]
                (filter (isPrior deploymentConfig deploymentName) (sortedHistory items))) as P'.
      { symmetry. rewrite P, (Permutation_filter _ _ _ Pitems).
        cbn [filter]. now rewrite P1, P2, P3. }
      pose proof (StronglySorted_filter _ (isPrior deploymentConfig deploymentName) _
                    (sortedHistory_sorted items)) as S.
      apply Permutation_length_2_inv in P' as [E|E]; rewrite E in *; [|reflexivity].
      exfalso. apply StronglySorted_inv in S as [_ S].
      apply Forall_inv in S. unfold notAfter, sort_Reverse in S.
      apply Less_false_iff in S. lia.
Qed.

Lemma history_sorted_by_creation_witness :
  (forall items,
     ReplicationControllers_List (kubeClient (describerOf (appAt 3) [app2; app3; app1Late]))
       "test" = inl items ->
     NoDup (map rcName items))
  /\ exists shown,
       writes (@describeHistory (helpersAt 100)
                 (describerOf (appAt 3) [app2; app3; app1Late]) "test" (appAt 3) "app-3")
              shown (@historyText (helpersAt 100) shown)
       /\ StronglySorted byCreation shown.
Proof.
  assert (forall items,
             ReplicationControllers_List
               (kubeClient (describerOf (appAt 3) [app2; app3; app1Late])) "test" = inl items ->
             NoDup (map rcName items)) as Hnames.
  { intros items E. injection E as <-.
    repeat constructor; cbn; intuition discriminate. }
  split; [exact Hnames|].
  destruct (@history_sorted_by_creation (helpersAt 100)
              (describerOf (appAt 3) [app2; app3; app1Late]) "test" (appAt 3) "app-3" Hnames)
    as [shown [Hw [Hs _]]].
  exists shown. split; assumption.
Defined.

(** C1 fails as stated: with deployment 1 created after deployment 2, the
    history shows deployment 1 before deployment 2. *)
Lemma history_not_sorted_by_version :
  exists text,
    @describeHistory (helpersAt 100)
      (describerOf (appAt 3) [app2; app3; app1Late]) "test" (appAt 3) "app-3" ""
    = Some ([app1Late; app2], text)
    /\ ~ StronglySorted (@byVersion (helpersAt 100)) [app1Late; app2].
Proof.
  eexists. split; [vm_compute; reflexivity|].
  intros S. apply StronglySorted_inv in S as [_ S]. apply Forall_inv in S.
  unfold byVersion in S. vm_compute in S.
  destruct S as [S|[S _]]; discriminate.
Qed.

Lemma history_truncated_witness :
  config (describerOf (appAt 3) [app1; app2; app3]) = None
  /\ ReplicationControllers_List (kubeClient (describerOf (appAt 3) [app1; app2; app3])) "test"
     = inl [app1; app2; app3]
  /\ exists shown,
       writes (@describeHistory (helpersAt 100)
                 (describerOf (appAt 3) [app1; app2; app3]) "test" (appAt 3) "app-3")
              shown (@historyText (helpersAt 100) shown)
       /\ shown = [app2; app1].
Proof.
  split; [reflexivity|]. split; [reflexivity|].
  destruct (@history_truncated (helpersAt 100)
              (describerOf (appAt 3) [app1; app2; app3]) "test" (appAt 3) "app-3")
    as [shown [Hw [_ Hitems]]].
  destruct (Hitems [app1; app2; app3] eq_refl eq_refl) as [_ [_ Hscenario]].
  exists shown. split; [exact Hw|].
  apply (Hscenario app1 app2 app3); [reflexivity | reflexivity | reflexivity | reflexivity |].
  vm_compute. reflexivity.
Defined.

(** C2 fails as stated: of three prior deployments the history shows
    two. *)
Lemma history_shows_two_of_three :
  exists text,
    @describeHistory (helpersAt 100)
      (describerOf (appAt 4) [app1; app2; app3; app4]) "test" (appAt 4) "app-4" ""
    = Some ([app3; app2], text)
    /\ lenL (filter (@isPrior (helpersAt 100) (appAt 4) "app-4") [app1; app2; app3; app4]) = 3
    /\ lenL [app3; app2] <> 3.
Proof.
  eexists. split; [vm_compute; reflexivity|].
  split; [vm_compute; reflexivity | discriminate].
Qed.

(** ** The events *)

Lemma latestEventsLoop_spec (items : list Event) (i : nat) (latest : list Event) :
  (i <= List.length items)%nat ->
  latestEventsLoop items i latest
  = Some (latest ++ rev (skipn (List.length items - 8) (firstn i items)))%list.
Proof.
  revert latest. induction i as [|j IH]; intros latest Hi.
  - cbn [latestEventsLoop firstn]. rewrite skipn_nil. cbn. now rewrite app_nil_r.
  - cbn [latestEventsLoop]. unfold lenL, maxDisplayDeploymentsEvents.
    destruct (Z.gtb_spec (Z.of_nat (S j)) (Z.of_nat (List.length items) - 8)) as [G|L].
    + destruct (nth_error items j) as [e|] eqn:E.
      2:{ apply nth_error_None in E. lia. }
      rewrite IH by lia.
      assert (firstn (S j) items = firstn j items ++ [e])%list as ->.
      { clear -E. revert items E. induction j as [|j IHj]; intros [|x t] E; try discriminate.
        - cbn in E. now injection E as ->.
        - cbn [firstn app]. f_equal. now apply IHj. }
      rewrite skipn_app, length_firstn.
      replace (List.length items - 8 - Nat.min j (List.length items))%nat with O by lia.
      cbn [skipn]. rewrite rev_app_distr. cbn [rev app]. now rewrite <- app_assoc.
    + rewrite skipn_all2; [cbn; now rewrite app_nil_r|].
      rewrite length_firstn. lia.
Qed.

Lemma latestEvents_all (items : list Event) :
  latestEventsLoop items (List.length items) [] = Some (firstn 8 (rev items)).
Proof.
  rewrite latestEventsLoop_spec by lia.
  rewrite firstn_all, firstn_rev. reflexivity.
Qed.

Lemma describeEvents_writes `{Helpers} (kc : KubeClient) (settings : DescriberSettings)
    (deploymentConfig : DeploymentConfig) :
  exists events text, writes (describeEvents kc settings deploymentConfig) events text.
Proof.
  unfold describeEvents.
  destruct (ShowEvents settings); [|do 2 eexists; apply writes_ret].
  destruct (Events_Search _ _ _) as [[items|]|err]; try (do 2 eexists; apply writes_ret).
  rewrite latestEvents_all. do 2 eexists.
  eapply writes_bind; [apply writes_ret|].
  eapply writes_bind; [apply writes_Fprint|].
  eapply writes_bind; [apply writes_Fprint | apply writes_ret].
Qed.

(** C5: of the [n] events that the search returns oldest first, the event
    section shows the last [min n 8], newest first. *)
Theorem events_latest_eight `{Helpers} (kc : KubeClient) (settings : DescriberSettings)
    (deploymentConfig : DeploymentConfig) (items : list Event) :
  ShowEvents settings = true ->
  Events_Search kc (Namespace (dc_Meta deploymentConfig)) deploymentConfig
  = inl (Some items) ->
  let latest := rev (skipn (List.length items - 8) items) in
  writes (describeEvents kc settings deploymentConfig)
         latest (NL ++ DescribeEvents latest)
  /\ lenL latest = Z.min (lenL items) 8
  /\ latest = firstn 8 (rev items).
Proof.
  intros Hshow Hsearch latest.
  assert (latest = firstn 8 (rev items)) as E by (symmetry; apply firstn_rev).
  split; [|split; [|exact E]].
  - unfold describeEvents. rewrite Hshow, Hsearch, latestEvents_all, <- E.
    eapply writes_eq.
    + eapply writes_bind; [apply writes_ret|].
      eapply writes_bind; [apply writes_Fprint|].
      eapply writes_bind; [apply writes_Fprint | apply writes_ret].
    + cbn. now rewrite append_nil_r.
  - unfold latest, lenL. rewrite length_rev, length_skipn. lia.
Qed.

Lemma events_latest_eight_witness :
  ShowEvents withEvents = true
  /\ Events_Search (clusterOf [] [] tenEvents) (Namespace (dc_Meta (appAt 0))) (appAt 0)
     = inl (Some tenEvents)
  /\ writes (@describeEvents (helpersAt 100) (clusterOf [] [] tenEvents) withEvents (appAt 0))
            (map eventNo [10; 9; 8; 7; 6; 5; 4; 3])
            (NL ++ @DescribeEvents (helpersAt 100) (map eventNo [10; 9; 8; 7; 6; 5; 4; 3])).
Proof.
  split; [reflexivity|]. split; [reflexivity|].
  exact (proj1 (@events_latest_eight (helpersAt 100) (clusterOf [] [] tenEvents) withEvents
                  (appAt 0) tenEvents eq_refl eq_refl)).
Defined.

(** ** Decimal numbers *)

Lemma parseInt_FormatInt (z : Z) : parseInt (FormatInt z) = z.
Proof.
  unfold parseInt, FormatInt. rewrite NilZero.isi.
  - apply DecimalZ.of_to.
  - destruct z; cbn; try discriminate.
    intros E. injection E as E. now apply DecimalPos.Unsigned.to_uint_nonnil in E.
  - destruct z; cbn; try discriminate.
    intros E. injection E as E. now apply DecimalPos.Unsigned.to_uint_nonnil in E.
Qed.

(** ** Computations that only append *)

Lemma appends_ret {A} (a : A) : appends (ret a).
Proof. intros out b out' E. injection E as _ <-. exists "". now rewrite append_nil_r. Qed.

Lemma appends_Fprint (s : string) : appends (Fprint s).
Proof. intros out b out' E. injection E as _ <-. now exists s. Qed.

Lemma appends_panic {A} : appends (@panic A).
Proof. intros out b out' E. discriminate. Qed.

Lemma appends_liftOption {A} (o : option A) : appends (liftOption o).
Proof. destruct o; [apply appends_ret | apply appends_panic]. Qed.

Lemma appends_bind {A B} (m : W A) (k : A -> W B) :
  appends m -> (forall a, appends (k a)) -> appends (bind m k).
Proof.
  intros Hm Hk out b out' E. unfold bind in E.
  destruct (m out) as [[a out1]|] eqn:E1; [|discriminate].
  apply Hm in E1 as [t ->]. apply Hk in E as [u ->].
  exists (t ++ u). apply append_assoc.
Qed.

Lemma appends_when (b : bool) (m : W unit) : appends m -> appends (when b m).
Proof. destruct b; [trivial | intros _; apply appends_ret]. Qed.

Lemma appends_forEach {A} (l : list A) (f : A -> W unit) :
  (forall x, appends (f x)) -> appends (forEach l f).
Proof.
  intros Hf. induction l as [|x t IH]; cbn [forEach]; [apply appends_ret|].
  apply appends_bind; [apply Hf | intros _; exact IH].
Qed.

Lemma appends_writes {A} (m : W A) (a : A) (t : string) : writes m a t -> appends m.
Proof. intros Hm out b out' E. rewrite Hm in E. injection E as _ <-. now exists t. Qed.

Ltac appends_step :=
  first
    [ apply appends_ret | apply appends_Fprint | apply appends_panic
    | apply appends_liftOption | apply appends_when | apply appends_forEach
    | apply appends_bind
    | match goal with
      | |- forall _, _ => intro
      | |- appends (match ?x with _ => _ end) => destruct x
      end ].

Ltac appends_auto := repeat appends_step.

Section Appends.
Context `{Helpers}.

Lemma printHook_appends prefix hook indent : appends (printHook prefix hook indent).
Proof. unfold printHook. appends_auto. Qed.

Lemma printHookIfSet_appends prefix hook indent :
  appends (printHookIfSet prefix hook indent).
Proof.
  unfold printHookIfSet. destruct hook; [|apply appends_ret].
  apply appends_bind; [apply printHook_appends | intro; apply appends_ret].
Qed.

Lemma printStrategy_appends strategy indent : appends (printStrategy strategy indent).
Proof.
  unfold printStrategy.
  repeat first [ apply printHookIfSet_appends | appends_step ].
Qed.

Lemma printTriggers_appends triggers : appends (printTriggers triggers).
Proof. unfold printTriggers. appends_auto. Qed.

Lemma printAutoscalingInfo_appends res namespace name kc :
  appends (printAutoscalingInfo res namespace name kc).
Proof. unfold printAutoscalingInfo. appends_auto. Qed.

Lemma printDeploymentConfigSpec_appends kc dc : appends (printDeploymentConfigSpec kc dc).
Proof.
  unfold printDeploymentConfigSpec.
  repeat first [ apply printAutoscalingInfo_appends | apply printTriggers_appends
               | apply printStrategy_appends | appends_step ].
Qed.

Lemma printDeploymentRc_appends deployment kc header verbose :
  appends (printDeploymentRc deployment kc header verbose).
Proof. unfold printDeploymentRc. appends_auto. Qed.

Lemma describeLatestVersion_writes dc :
  writes (describeLatestVersion dc) tt (formatString "Latest Version" (versionText dc)).
Proof.
  unfold describeLatestVersion, versionText.
  destruct (LatestVersion (dc_Status dc) =? 0); apply writes_Fprint.
Qed.

Lemma describeWarning_appends dc : appends (describeWarning dc).
Proof. unfold describeWarning. appends_auto. Qed.

Lemma describeLatestDeployment_appends kc namespace deploymentName :
  appends (describeLatestDeployment kc namespace deploymentName).
Proof.
  unfold describeLatestDeployment.
  repeat first [ apply printDeploymentRc_appends | appends_step ].
Qed.

(** The config block begins with the metadata and the version line. *)
Lemma describeConfig_begins kc dc out dc' out' :
  describeConfig kc dc out = Some (dc', out') ->
  exists rest,
    out' = out ++ formatMeta (dc_Meta dc)
               ++ formatString "Latest Version" (versionText dc) ++ rest.
Proof.
  unfold describeConfig. unfold bind at 1. unfold Fprint at 1.
  unfold bind at 1. rewrite describeLatestVersion_writes.
  intros E.
  assert (appends (dc1 <- printDeploymentConfigSpec kc dc ;;
                   Fprintln ;; describeWarning dc1 ;; ret dc1)) as Hrest.
  { repeat first [ apply printDeploymentConfigSpec_appends
                 | apply describeWarning_appends | appends_step ]. }
  apply Hrest in E as [rest ->]. exists rest. now rewrite !append_assoc.
Qed.

Lemma describeBody_begins d namespace settings dc out result out' :
  describeBody d namespace settings dc out = Some (result, out') ->
  fst result = None
  /\ exists rest,
       out' = out ++ formatMeta (dc_Meta dc)
                  ++ formatString "Latest Version" (versionText dc) ++ rest.
Proof.
  unfold describeBody. unfold bind at 1.
  destruct (describeConfig (kubeClient d) dc out) as [[dc' out1]|] eqn:E1; [|discriminate].
  apply describeConfig_begins in E1 as [rest1 ->].
  intros E.
  pose proof (describeHistory_writes d namespace dc' (LatestDeploymentNameForConfig dc'))
    as Hh.
  destruct (describeEvents_writes (kubeClient d) settings dc') as [events [etext He]].
  unfold bind in E.
  destruct (describeLatestDeployment _ _ _ _) as [[[] out2]|] eqn:E2; [|discriminate].
  apply describeLatestDeployment_appends in E2 as [t2 ->].
  cbv zeta in Hh. rewrite Hh, He in E. unfold ret in E. injection E as <- <-.
  split; [reflexivity|].
  eexists. rewrite !append_assoc. reflexivity.
Qed.
End Appends.

(** ** Claims about [Describe] as a whole *)

(** Whenever [Describe] returns a text for a config, the text begins with
    the metadata and the line of the latest version. *)
Lemma Describe_text_begins `{Helpers} (d : DeploymentConfigDescriber)
    (namespace name : string) (settings : DescriberSettings)
    (text : string) (err : option error) (d' : DeploymentConfigDescriber) :
  Describe d namespace name settings = Some (text, err, d') ->
  (exists e, config d = None
             /\ DeploymentConfigs_Get (osClient d) namespace name = inr e
             /\ text = "" /\ err = Some e)
  \/ (exists dc rest,
        described d namespace name dc
        /\ err = None
        /\ (LatestVersion (dc_Status dc) = 0 ->
            text = tabwriter_Flush
                     (formatMeta (dc_Meta dc)
                      ++ formatString "Latest Version" "Not deployed" ++ rest))
        /\ (LatestVersion (dc_Status dc) <> 0 ->
            text = tabwriter_Flush
                     (formatMeta (dc_Meta dc)
                      ++ formatString "Latest Version"
                           (FormatInt (LatestVersion (dc_Status dc))) ++ rest)
            /\ parseInt (FormatInt (LatestVersion (dc_Status dc)))
               = LatestVersion (dc_Status dc))).
Proof.
  assert (forall dc s,
             tabbedString (describeBody d namespace settings dc) = Some (text, err, s) ->
             exists rest,
               err = None
               /\ text = tabwriter_Flush
                           (formatMeta (dc_Meta dc)
                            ++ formatString "Latest Version" (versionText dc) ++ rest))
    as Hbody.
  { intros dc s. unfold tabbedString.
    destruct (describeBody d namespace settings dc "") as [[[e s'] out]|] eqn:E;
      [|discriminate].
    apply describeBody_begins in E as [Hnil [rest ->]]. cbn in Hnil. subst e.
    intros E. injection E as <- <- <-. now exists rest. }
  assert (forall dc rest,
             described d namespace name dc -> err = None ->
             text = tabwriter_Flush
                      (formatMeta (dc_Meta dc)
                       ++ formatString "Latest Version" (versionText dc) ++ rest) ->
             exists dc0 rest0,
               described d namespace name dc0
               /\ err = None
               /\ (LatestVersion (dc_Status dc0) = 0 ->
                   text = tabwriter_Flush
                            (formatMeta (dc_Meta dc0)
                             ++ formatString "Latest Version" "Not deployed" ++ rest0))
               /\ (LatestVersion (dc_Status dc0) <> 0 ->
                   text = tabwriter_Flush
                            (formatMeta (dc_Meta dc0)
                             ++ formatString "Latest Version"
                                  (FormatInt (LatestVersion (dc_Status dc0))) ++ rest0)
                   /\ parseInt (FormatInt (LatestVersion (dc_Status dc0)))
                      = LatestVersion (dc_Status dc0))) as Hcases.
  { intros dc rest Hd He Ht. exists dc, rest. unfold versionText in Ht.
    split; [exact Hd|]. split; [exact He|]. split.
    - intros E0. now rewrite E0 in Ht.
    - intros N0. split; [|apply parseInt_FormatInt].
      apply Z.eqb_neq in N0. now rewrite N0 in Ht. }
  unfold Describe.
  destruct (config d) as [given|] eqn:Ec.
  - destruct (tabbedString _) as [[[t e] s]|] eqn:E; [|discriminate].
    intros E'. injection E' as -> -> _.
    apply Hbody in E as [rest [He Ht]]. right.
    apply (Hcases given rest); trivial. unfold described. now rewrite Ec.
  - destruct (DeploymentConfigs_Get _ _ _) as [dc|e] eqn:Eg.
    + destruct (tabbedString _) as [[[t e] s]|] eqn:E; [|discriminate].
      intros E'. injection E' as -> -> _.
      apply Hbody in E as [rest [He Ht]]. right.
      apply (Hcases dc rest); trivial. unfold described. now rewrite Ec.
    + intros E. injection E as <- <- _. left. now exists e.
Qed.


(** C4: when the config cannot be fetched, [Describe] returns the error
    and no text.  When the latest deployment cannot be fetched, the text
    carries "<none>" in its place if the error is not-found, "error: " and
    the cause otherwise, and goes on with the history and the events; no
    error is returned. *)
Theorem latest_deployment_degrades `{Helpers} (d : DeploymentConfigDescriber)
    (namespace name : string) (settings : DescriberSettings) :
  (forall err,
     config d = None ->
     DeploymentConfigs_Get (osClient d) namespace name = inr err ->
     Describe d namespace name settings = Some ("", Some err, d))
  /\ (forall dc dc' pre err,
        described d namespace name dc ->
        describeConfig (kubeClient d) dc "" = Some (dc', pre) ->
        ReplicationControllers_Get (kubeClient d) namespace
          (LatestDeploymentNameForConfig dc') = inr err ->
        exists shown events etext d',
          writes (describeHistory d namespace dc' (LatestDeploymentNameForConfig dc'))
                 shown (historyText shown)
          /\ writes (describeEvents (kubeClient d) settings dc') events etext
          /\ (IsNotFound err = true ->
              Describe d namespace name settings
              = Some (tabwriter_Flush
                        (pre ++ formatString "Latest Deployment" "<none>"
                             ++ historyText shown ++ etext), None, d'))
          /\ (IsNotFound err = false ->
              Describe d namespace name settings
              = Some (tabwriter_Flush
                        (pre ++ formatString "Latest Deployment" ("error: " ++ Error err)
                             ++ historyText shown ++ etext), None, d'))).
Proof.
  split.
  - intros err Hc Hg. unfold Describe. now rewrite Hc, Hg.
  - intros dc dc' pre err Hd Hcfg Hget.
    pose proof (describeHistory_writes d namespace dc' (LatestDeploymentNameForConfig dc'))
      as Hh. cbv zeta in Hh.
    match type of Hh with
    | writes _ ?s _ => remember s as shown eqn:Eshown; clear Eshown
    end.
    destruct (describeEvents_writes (kubeClient d) settings dc') as [events [etext He]].
    assert (forall marker,
               (if IsNotFound err then "<none>" else "error: " ++ Error err) = marker ->
               tabbedString (describeBody d namespace settings dc)
               = Some (tabwriter_Flush
                         (pre ++ formatString "Latest Deployment" marker
                              ++ historyText shown ++ etext), None, dc')) as Hbody.
    { intros marker <-. unfold tabbedString, describeBody.
      unfold bind at 1. rewrite Hcfg.
      unfold bind at 1. unfold describeLatestDeployment. rewrite Hget.
      assert (forall s, (if IsNotFound err
                         then Fprint (formatString "Latest Deployment" "<none>")
                         else Fprint (formatString "Latest Deployment" ("error: " ++ Error err))) s
                        = Some (tt, s ++ formatString "Latest Deployment"
                                      (if IsNotFound err then "<none>"
                                       else "error: " ++ Error err))) as ->
          by (intros s; now destruct (IsNotFound err)).
      unfold bind. rewrite Hh, He. unfold ret. now rewrite !append_assoc. }
    exists shown, events, etext.
    unfold Describe, described in *.
    destruct (config d) as [given|].
    + subst given. eexists. split; [exact Hh|]. split; [exact He|].
      split; intros E; rewrite (Hbody _ (f_equal (fun b : bool => if b then _ else _) E));
        reflexivity.
    + rewrite Hd. exists d. split; [exact Hh|]. split; [exact He|].
      split; intros E; rewrite (Hbody _ (f_equal (fun b : bool => if b then _ else _) E));
        reflexivity.
Qed.

Lemma latest_deployment_degrades_witness :
  @Describe (helpersAt 100) (describerWith noConfigs (clusterOf [] [] [])) "test" "app" noEvents
  = Some ("", Some (notFound "app"), describerWith noConfigs (clusterOf [] [] []))
  /\ (exists pre shown etext d',
        @describeConfig (helpersAt 100) (clusterOf [] [] []) (appAt 3) ""
        = Some (appAt 3, pre)
        /\ @Describe (helpersAt 100) (describerWith (oneConfig (appAt 3)) (clusterOf [] [] []))
             "test" "app" noEvents
           = Some (pre ++ @formatString (helpersAt 100) "Latest Deployment" "<none>"
                       ++ @historyText (helpersAt 100) shown ++ etext, None, d'))
  /\ (exists pre shown etext d',
        @describeConfig (helpersAt 100) unreachableCluster (appAt 3) ""
        = Some (appAt 3, pre)
        /\ @Describe (helpersAt 100) (describerWith (oneConfig (appAt 3)) unreachableCluster)
             "test" "app" noEvents
           = Some (pre ++ @formatString (helpersAt 100) "Latest Deployment"
                            "error: connection refused"
                       ++ @historyText (helpersAt 100) shown ++ etext, None, d')).
Proof.
  split; [|split].
  - exact (proj1 (@latest_deployment_degrades (helpersAt 100)
                    (describerWith noConfigs (clusterOf [] [] [])) "test" "app" noEvents)
             (notFound "app") eq_refl eq_refl).
  - eassert (@describeConfig (helpersAt 100) (clusterOf [] [] []) (appAt 3) ""
             = Some (appAt 3, _)) as Hcfg by (vm_compute; reflexivity).
    destruct (proj2 (@latest_deployment_degrades (helpersAt 100)
                       (describerWith (oneConfig (appAt 3)) (clusterOf [] [] []))
                       "test" "app" noEvents)
                _ _ _ (notFound "app-3") eq_refl Hcfg eq_refl)
      as [shown [events [etext [d' [_ [_ [Hnone _]]]]]]].
    eexists _, shown, etext, d'. split; [exact Hcfg | exact (Hnone eq_refl)].
  - eassert (@describeConfig (helpersAt 100) unreachableCluster (appAt 3) ""
             = Some (appAt 3, _)) as Hcfg by (vm_compute; reflexivity).
    destruct (proj2 (@latest_deployment_degrades (helpersAt 100)
                       (describerWith (oneConfig (appAt 3)) unreachableCluster)
                       "test" "app" noEvents)
                _ _ _ (errors_New "connection refused") eq_refl Hcfg eq_refl)
      as [shown [events [etext [d' [_ [_ [_ Hother]]]]]]].
    eexists _, shown, etext, d'. split; [exact Hcfg | exact (Hother eq_refl)].
Defined.

(** ** Autoscaling *)

Lemma filter_first {A} (f : A -> bool) (before : list A) (x : A) (after : list A) :
  Forall (fun y => f y = false) before -> f x = true ->
  filter f (before ++ x :: after) = x :: filter f after.
Proof.
  intros Hb Hx. induction Hb as [|y t Hy _ IH]; cbn [app filter].
  - now rewrite Hx.
  - now rewrite Hy.
Qed.

(** C6: when listing the autoscalers fails nothing is written, and no
    error arises.  Otherwise the first autoscaler of the list that targets
    the resource by name and kind is rendered in one line, "between MIN and
    MAX replicas", followed by the CPU target when one is set; whatever
    follows it in the list is left out. *)
Theorem autoscaling_first_binding (res : GroupResource) (namespace name : string)
    (kc : KubeClient) :
  (forall err,
     HorizontalPodAutoscalers_List kc namespace = inr err ->
     writes (printAutoscalingInfo res namespace name kc) tt "")
  /\ (forall before hpa after minReplicas,
        HorizontalPodAutoscalers_List kc namespace = inl (before ++ hpa :: after)%list ->
        Forall (fun other => scales res name other = false) before ->
        scales res name hpa = true ->
        MinReplicas hpa = Some minReplicas ->
        (CPUUtilization hpa = None ->
         writes (printAutoscalingInfo res namespace name kc) tt
           ("Autoscaling:" ++ TAB ++ "between " ++ FormatInt minReplicas ++ " and "
              ++ FormatInt (MaxReplicas hpa) ++ " replicas" ++ NL))
        /\ (forall target,
              CPUUtilization hpa = Some target ->
              writes (printAutoscalingInfo res namespace name kc) tt
                ("Autoscaling:" ++ TAB ++ "between " ++ FormatInt minReplicas ++ " and "
                   ++ FormatInt (MaxReplicas hpa) ++ " replicas"
                   ++ ", triggered at " ++ FormatInt target ++ "% CPU usage" ++ NL))).
Proof.
  split.
  - intros err E. unfold printAutoscalingInfo. rewrite E. apply writes_ret.
  - intros before hpa after minReplicas E Hb Hx Hmin.
    unfold printAutoscalingInfo. rewrite E, (filter_first _ _ _ _ Hb Hx), Hmin.
    split; [intros -> | intros target ->]; intros out; cbn;
      rewrite ?append_assoc; reflexivity.
Qed.

Lemma autoscaling_first_binding_witness :
  writes (printAutoscalingInfo (@deployapi_Resource (helpersAt 100) "DeploymentConfig")
            "test" "app" unreachableCluster) tt ""
  /\ writes (printAutoscalingInfo (@deployapi_Resource (helpersAt 100) "DeploymentConfig")
               "test" "app"
               (clusterOf [] [autoscalerOf "db" 1 2 None;
                              autoscalerOf "app" 1 5 (Some 80);
                              autoscalerOf "app" 2 10 None] []))
            tt ("Autoscaling:" ++ TAB
                  ++ "between 1 and 5 replicas, triggered at 80% CPU usage" ++ NL).
Proof.
  split.
  - exact (proj1 (autoscaling_first_binding
                    (@deployapi_Resource (helpersAt 100) "DeploymentConfig")
                    "test" "app" unreachableCluster)
             (errors_New "connection refused") eq_refl).
  - refine (proj2 (proj2 (autoscaling_first_binding
                            (@deployapi_Resource (helpersAt 100) "DeploymentConfig")
                            "test" "app"
                            (clusterOf [] [autoscalerOf "db" 1 2 None;
                                           autoscalerOf "app" 1 5 (Some 80);
                                           autoscalerOf "app" 2 10 None] []))
                     [autoscalerOf "db" 1 2 None] (autoscalerOf "app" 1 5 (Some 80))
                     [autoscalerOf "app" 2 10 None] 1 eq_refl _ eq_refl eq_refl)
             80 eq_refl).
    repeat constructor.
Defined.

(** ** Triggers *)

Section Triggers.
Context `{Helpers}.

Lemma triggerLabels_spec (triggers : list DeploymentTriggerPolicy) (labels : list string) :
  Forall hasParams triggers ->
  triggerLabels triggers labels = Some (labels ++ flat_map triggerLabel triggers)%list.
Proof.
  intros Hp. revert labels. induction Hp as [|t rest Ht _ IH]; intros labels.
  - cbn. now rewrite app_nil_r.
  - cbn [triggerLabels flat_map]. unfold triggerLabel at 1.
    destruct (String.eqb (trigger_Type t) DeploymentTriggerOnConfigChange).
    { rewrite IH. now rewrite <- app_assoc. }
    destruct (String.eqb_spec (trigger_Type t) DeploymentTriggerOnImageChange) as [E|N].
    2:{ now rewrite IH. }
    destruct (ImageChangeParams t) as [p|] eqn:Ep; [|now elim (Ht E)].
    destruct (0 <? len (ref_Name (From p))); [|now rewrite IH].
    unfold imageLabel. destruct (SplitImageStreamTag _) as [[n tg] ok].
    rewrite IH. now rewrite <- app_assoc.
Qed.
End Triggers.

(** C7 (amended): an empty trigger list renders as "<none>"; a non-empty
    list renders as its labels joined by ", ", where a config-change
    trigger has the label "Config" and an image-change trigger with a
    reference name the label Image(<stream>@<tag>, auto=<bool>); an
    image-change trigger whose reference name is empty has no label, and
    neither has a trigger of another type. *)
Theorem trigger_summary `{Helpers} (triggers : list DeploymentTriggerPolicy) :
  (triggers = [] -> writes (printTriggers triggers) tt (formatString "Triggers" "<none>"))
  /\ (triggers <> [] ->
      Forall hasParams triggers ->
      writes (printTriggers triggers) tt
        (formatString "Triggers" (strings_Join (flat_map triggerLabel triggers) ", ")))
  /\ (forall t, trigger_Type t = DeploymentTriggerOnConfigChange ->
                triggerLabel t = ["Config"])
  /\ (forall t p name tag ok,
        trigger_Type t = DeploymentTriggerOnImageChange ->
        ImageChangeParams t = Some p ->
        ref_Name (From p) <> "" ->
        SplitImageStreamTag (ref_Name (From p)) = (name, tag, ok) ->
        triggerLabel t
        = ["Image(" ++ name ++ "@" ++ tag ++ ", auto=" ++ FormatBool (Automatic p) ++ ")"]).
Proof.
  split; [|split; [|split]].
  - intros ->. apply writes_Fprint.
  - intros Hne Hp. unfold printTriggers.
    destruct triggers as [|t rest]; [contradiction|].
    replace (lenL (t :: rest) =? 0) with false
      by (symmetry; apply Z.eqb_neq; unfold lenL; cbn [List.length]; lia).
    rewrite (triggerLabels_spec _ _ Hp). cbn [app liftOption].
    eapply writes_eq.
    + eapply writes_bind; [apply writes_ret | apply writes_Fprint].
    + reflexivity.
  - intros t E. unfold triggerLabel. now rewrite E.
  - intros t p name tag ok E Ep Hname Hsplit. unfold triggerLabel.
    rewrite E, Ep. cbn [String.eqb DeploymentTriggerOnImageChange DeploymentTriggerOnConfigChange].
    replace (0 <? len (ref_Name (From p))) with true.
    + unfold imageLabel. now rewrite Hsplit.
    + symmetry. apply Z.ltb_lt. unfold len.
      destruct (ref_Name (From p)); [contradiction | cbn; lia].
Qed.

Lemma trigger_summary_witness :
  [configChange; imageChange "ruby:2.0" true] <> []
  /\ Forall hasParams [configChange; imageChange "ruby:2.0" true]
  /\ writes (@printTriggers (helpersAt 100) [configChange; imageChange "ruby:2.0" true]) tt
       (@formatString (helpersAt 100) "Triggers" "Config, Image(ruby@2.0, auto=true)").
Proof.
  assert ([configChange; imageChange "ruby:2.0" true] <> []) as Hne by discriminate.
  assert (Forall hasParams [configChange; imageChange "ruby:2.0" true]) as Hp.
  { repeat constructor; intros E; discriminate. }
  split; [exact Hne|]. split; [exact Hp|].
  exact (proj1 (proj2 (@trigger_summary (helpersAt 100)
                         [configChange; imageChange "ruby:2.0" true])) Hne Hp).
Defined.

(** C7 fails as stated: an image-change trigger whose reference has no
    name is left out of the summary, which is then empty. *)
Lemma trigger_without_name_unlabelled :
  @claimedTriggerSummary (helpersAt 100) [imageChange "" true]
  = Some "Image(@latest, auto=true)"
  /\ @printTriggers (helpersAt 100) [imageChange "" true] ""
     = Some (tt, @formatString (helpersAt 100) "Triggers" "")
  /\ @formatString (helpersAt 100) "Triggers" ""
     <> @formatString (helpersAt 100) "Triggers" "Image(@latest, auto=true)".
Proof.
  split; [vm_compute; reflexivity|].
  split; [vm_compute; reflexivity|].
  vm_compute. discriminate.
Qed.

(** ** Rendering twice *)

(** C8 fails on the code: [multilineStringArray] overwrites the command of
    the config it prints, so a describer that was given its config renders a
    command with an embedded newline differently the second time. *)
Theorem describe_twice_differs :
  exists text1 text2 d1 d2,
    @Describe (helpersAt 100) (describerGiven scripted) "test" "app" noEvents
    = Some (text1, None, d1)
    /\ @Describe (helpersAt 100) d1 "test" "app" noEvents = Some (text2, None, d2)
    /\ text1 <> text2
    /\ config d1 <> config (describerGiven scripted)
    /\ exists line1 line2 args1 args2,
         multilineStringArray " " (TAB ++ "  ") ["sh"; "-c"; "echo a" ++ NL ++ "echo b"]
         = Some (line1, args1)
         /\ multilineStringArray " " (TAB ++ "  ") args1 = Some (line2, args2)
         /\ line1 = "sh -c " ++ NL ++ TAB ++ "  echo a" ++ NL ++ TAB ++ "  echo b"
         /\ line2 = "sh -c " ++ NL ++ TAB ++ "  " ++ NL ++ TAB ++ "  " ++ TAB ++ "  echo a"
                             ++ NL ++ TAB ++ "  " ++ TAB ++ "  echo b".
Proof.
  do 4 eexists.
  split; [vm_compute; reflexivity|].
  split; [vm_compute; reflexivity|].
  split; [vm_compute; discriminate|].
  split; [vm_compute; discriminate|].
  do 4 eexists.
  split; [vm_compute; reflexivity|].
  split; [vm_compute; reflexivity|].
  split; vm_compute; reflexivity.
Qed.

(** ** The multi-line formatter *)

(** C9 fails on the code: the value of [strings.TrimRight] is dropped, so
    a trailing space or newline of the last token stays in the result. *)
Theorem trailing_space_kept :
  multilineStringArray " " (TAB ++ "  ") ["echo"; "hi "] = Some ("echo hi ", ["echo"; "hi "])
  /\ strings_TrimRight "echo hi " (NL ++ " ") = "echo hi"
  /\ multilineStringArray " " (TAB ++ "  ") ["echo"; "hi" ++ NL ++ NL]
     = Some ("echo " ++ NL ++ TAB ++ "  hi" ++ NL ++ TAB ++ "  ",
             ["echo"; NL ++ TAB ++ "  hi" ++ NL ++ TAB ++ "  "]).
Proof.
  split; [vm_compute; reflexivity|].
  split; vm_compute; reflexivity.
Qed.

Lemma multilineStringArray_joins (sep indent : string) (args : list string) :
  args <> [] ->
  multilineStringArray sep indent args
  = Some (strings_Join (map (reflow indent) args) " ", map (reflow indent) args).
Proof.
  intros Hne. unfold multilineStringArray.
  destruct (nth_error _ _) as [l|] eqn:E; [reflexivity|].
  apply nth_error_None in E. unfold lenL in E. rewrite length_map in E.
  destruct args; [contradiction | cbn [List.length] in E; lia].
Qed.

(** ** The user registry *)

Lemma InA_eq_In {A} (x : A) (l : list A) : SetoidList.InA Logic.eq x l <-> In x l.
Proof.
  rewrite SetoidList.InA_alt. split.
  - now intros [y [-> Hy]].
  - intros Hx. now exists x.
Qed.

Lemma sets_NewString_spec (items : list string) (g : string) :
  StringSet.In g (sets_NewString items) <-> In g items.
Proof.
  unfold sets_NewString.
  assert (forall s, StringSet.In g (fold_left (fun s item => StringSet.add item s) items s)
                    <-> In g items \/ StringSet.In g s) as Hfold.
  { induction items as [|x t IH]; intros s; cbn [fold_left In].
    - tauto.
    - rewrite IH, StringSet.add_spec. intuition congruence. }
  rewrite Hfold. split; [|tauto].
  intros [Hg|He]; [exact Hg | now apply StringSet.empty_spec in He].
Qed.

Lemma sets_Delete_spec (s : StringSet.t) (items : list string) (g : string) :
  StringSet.In g (sets_Delete s items) <-> StringSet.In g s /\ ~ In g items.
Proof.
  unfold sets_Delete. revert s. induction items as [|x t IH]; intros s; cbn [fold_left In].
  - tauto.
  - rewrite IH, StringSet.remove_spec. intuition congruence.
Qed.

Lemma virtualGroups_spec `{UserPolicy} (user : UserInfo) (g : string) :
  In g (virtualGroups user)
  <-> In g (GetGroups user) /\ g <> UnauthenticatedGroup /\ g <> AuthenticatedGroup.
Proof.
  unfold virtualGroups, sets_List.
  rewrite <- InA_eq_In, StringSet.elements_spec1, sets_Delete_spec, sets_NewString_spec.
  cbn [In]. intuition congruence.
Qed.

(** C10: [Get] of "~" without an authenticated user, or with one of empty
    name, is forbidden and does not read the store.  With an authenticated
    user whose name is no valid user name it answers a user object that
    bears that name, the groups of the context without the two virtual
    groups and nothing else, again without reading the store; with a valid
    name it reads the store once, answers that same user object when the
    store reports not-found, and returns any other error of the store.  [Get] of another name that
    is no valid user name is an invalid-field error on [metadata.name],
    without reading the store. *)
Theorem get_current_user `{UserPolicy} (r : REST) (ctx : Context) :
  ((UserFrom ctx = None \/ exists user, UserFrom ctx = Some user /\ GetName user = "") ->
   Get r ctx "~"
   = ((None, Some (kerrs_NewForbidden (api_Resource "user") "~"
                     (errors_New "requests to ~ must be authenticated"))), [])
   /\ IsForbidden (kerrs_NewForbidden (api_Resource "user") "~"
                     (errors_New "requests to ~ must be authenticated")) = true)
  /\ (forall user,
        UserFrom ctx = Some user -> GetName user <> "" ->
        (fst (ValidateUserName (GetName user) false) = false ->
         Get r ctx "~"
         = ((Some {| user_Meta := {| Name := GetName user; Namespace := "";
                                    CreationTimestamp := 0; Labels := [];
                                    Annotations := [] |};
                    FullName := ""; Identities := [];
                    Groups := virtualGroups user |}, None), []))
        /\ (forall obj err,
              fst (ValidateUserName (GetName user) false) = true ->
              Store_Get (rest_Store r) ctx (GetName user) = (obj, Some err) ->
              (IsNotFound err = true ->
               Get r ctx "~"
               = ((Some {| user_Meta := {| Name := GetName user; Namespace := "";
                                    CreationTimestamp := 0; Labels := [];
                                    Annotations := [] |};
                    FullName := ""; Identities := [];
                    Groups := virtualGroups user |}, None),
                  [GetName user]))
              /\ (IsNotFound err = false ->
                  Get r ctx "~" = ((None, Some err), [GetName user])))
        /\ (forall g, In g (virtualGroups user)
                      <-> In g (GetGroups user)
                          /\ g <> UnauthenticatedGroup /\ g <> AuthenticatedGroup))
  /\ (forall name,
        name <> "~" ->
        fst (ValidateUserName name false) = false ->
        Get r ctx name
        = ((None, Some (field_Invalid ["metadata"; "name"] name
                          (snd (ValidateUserName name false)))), [])).
Proof.
  split; [|split].
  - intros [E|[user [E Hname]]]; unfold Get; cbn [String.eqb Ascii.eqb Bool.eqb];
      rewrite E; [|rewrite Hname; cbn [String.eqb]]; split; reflexivity.
  - intros user E Hname.
    assert (Get r ctx "~"
            = if negb (fst (ValidateUserName (GetName user) false))
              then answer (Some (virtualUser (GetName user) (virtualGroups user)), None)
              else andThen (storeGet r ctx (GetName user)) (fun '(obj, err) =>
                     match err with
                     | None => answer (obj, None)
                     | Some e =>
                         if negb (IsNotFound e) then answer (None, Some e)
                         else answer (Some (virtualUser (GetName user) (virtualGroups user)),
                                      None)
                     end)) as Hget.
    { unfold Get. cbn [String.eqb Ascii.eqb Bool.eqb]. rewrite E.
      destruct (String.eqb_spec (GetName user) "") as [E0|_]; [contradiction | reflexivity]. }
    split; [|split].
    + intros Hv. rewrite Hget, Hv. reflexivity.
    + intros obj err Hv Hstore. rewrite Hget, Hv.
      unfold andThen, storeGet. rewrite Hstore. cbn [negb].
      split; intros ->; reflexivity.
    + apply virtualGroups_spec.
  - intros name Hname Hv. unfold Get.
    destruct (String.eqb_spec name "~") as [E|_]; [contradiction|].
    destruct (ValidateUserName name false) as [ok details]. cbn in Hv. subst ok.
    reflexivity.
Qed.

Lemma get_current_user_witness :
  (@Get policy store anonymous "~"
   = ((None, Some (kerrs_NewForbidden {| Group := ""; Resource := "user" |} "~"
                     (errors_New "requests to ~ must be authenticated"))), [])
   /\ IsForbidden (kerrs_NewForbidden {| Group := ""; Resource := "user" |} "~"
                     (errors_New "requests to ~ must be authenticated")) = true)
  /\ @Get policy store
       (contextOf "system:admin"
          ["system:cluster-admins"; "system:authenticated"; "developers"]) "~"
     = ((Some {| user_Meta := {| Name := "system:admin"; Namespace := "";
                               CreationTimestamp := 0; Labels := []; Annotations := [] |};
               FullName := ""; Identities := [];
               Groups := ["developers"; "system:cluster-admins"] |}, None), [])
  /\ @Get policy store (contextOf "bob" ["system:authenticated"; "developers"]) "~"
     = ((Some {| user_Meta := {| Name := "bob"; Namespace := "";
                               CreationTimestamp := 0; Labels := []; Annotations := [] |};
               FullName := ""; Identities := []; Groups := ["developers"] |}, None), ["bob"])
  /\ @Get policy store (contextOf "carol" []) "~"
     = ((None, Some (errors_New "etcd timeout")), ["carol"])
  /\ @Get policy store anonymous "system:admin"
     = ((None, Some (field_Invalid ["metadata"; "name"] "system:admin"
                       "may not contain a colon")), []).
Proof.
  split; [|split; [|split; [|split]]].
  - exact (proj1 (@get_current_user policy store anonymous) (or_introl eq_refl)).
  - assert ("system:admin" <> "") as Hname by discriminate.
    exact (proj1 (proj1 (proj2 (@get_current_user policy store
                                  (contextOf "system:admin"
                                     ["system:cluster-admins"; "system:authenticated";
                                      "developers"])))
                    _ eq_refl Hname) eq_refl).
  - assert ("bob" <> "") as Hname by discriminate.
    exact (proj1 (proj1 (proj2 (proj1 (proj2 (@get_current_user policy store
                                  (contextOf "bob" ["system:authenticated"; "developers"])))
                    _ eq_refl Hname)) None (notFound "bob") eq_refl eq_refl) eq_refl).
  - assert ("carol" <> "") as Hname by discriminate.
    exact (proj2 (proj1 (proj2 (proj1 (proj2 (@get_current_user policy store
                                  (contextOf "carol" [])))
                    _ eq_refl Hname)) None (errors_New "etcd timeout") eq_refl eq_refl)
             eq_refl).
  - assert ("system:admin" <> "~") as Hname by discriminate.
    exact (proj2 (proj2 (@get_current_user policy store anonymous))
             "system:admin" Hname eq_refl).
Defined.

(** ** Tokens of one line *)

Lemma lastByte_Contains (s : string) :
  substring (String.length s - 1) 1 s = NL -> strings_Contains s NL = true.
Proof.
  induction s as [|c s IH]; [discriminate|].
  cbn [String.length]. replace (S (String.length s) - 1)%nat with (String.length s) by lia.
  destruct s as [|c' s'].
  - cbn. intros E. injection E as ->. reflexivity.
  - cbn [String.length substring]. intros E.
    cbn [strings_Contains]. apply orb_true_iff. right. apply IH.
    cbn [String.length]. now replace (S (String.length s') - 1)%nat with (String.length s') by lia.
Qed.

Lemma reflow_oneLine (indent s : string) : oneLine s -> reflow indent s = s.
Proof.
  unfold oneLine, reflow. intros Hs.
  assert (strings_HasSuffix s NL = false) as ->.
  { unfold strings_HasSuffix. apply andb_false_iff.
    destruct (String.eqb_spec (substring (String.length s - String.length NL)
                                 (String.length NL) s) NL) as [E|_]; [|now right].
    apply lastByte_Contains in E. congruence. }
  now rewrite Hs.
Qed.

(** Tokens of one line are joined by single spaces and left as they are. *)
Lemma multilineStringArray_oneLine (sep indent : string) (args : list string) :
  args <> [] -> Forall oneLine args ->
  multilineStringArray sep indent args = Some (strings_Join args " ", args).
Proof.
  intros Hne Hall. rewrite multilineStringArray_joins by exact Hne.
  assert (map (reflow indent) args = args) as ->; [|reflexivity].
  clear Hne. induction Hall as [|x t Hx _ IH]; cbn [map]; [reflexivity|].
  now rewrite IH, reflow_oneLine.
Qed.

(** ** Computations that do not panic *)

Lemma runs_ret {A} (a : A) : runs (ret a).
Proof. do 2 eexists. apply writes_ret. Qed.

Lemma runs_Fprint (s : string) : runs (Fprint s).
Proof. do 2 eexists. apply writes_Fprint. Qed.

Lemma runs_bind {A B} (m : W A) (k : A -> W B) :
  runs m -> (forall a, runs (k a)) -> runs (bind m k).
Proof.
  intros [a [t Hm]] Hk. destruct (Hk a) as [b [u Hb]].
  do 2 eexists. eapply writes_bind; eassumption.
Qed.

Lemma runs_when (b : bool) (m : W unit) : runs m -> runs (when b m).
Proof. destruct b; [trivial | intros _; apply runs_ret]. Qed.

Lemma runs_forEach {A} (l : list A) (f : A -> W unit) :
  (forall x, runs (f x)) -> runs (forEach l f).
Proof.
  intros Hf. induction l as [|x t IH]; cbn [forEach]; [apply runs_ret|].
  apply runs_bind; [apply Hf | intros _; exact IH].
Qed.

Lemma runs_multilineStringArray (sep indent : string) (args : list string) :
  args <> [] -> runs (liftOption (multilineStringArray sep indent args)).
Proof.
  intros Hne. rewrite multilineStringArray_joins by exact Hne. apply runs_ret.
Qed.

Ltac runs_step :=
  first
    [ apply runs_ret | apply runs_Fprint | apply runs_when | apply runs_forEach
    | apply runs_bind
    | match goal with
      | |- forall _, _ => intro
      | |- runs (match ?x with _ => _ end) => destruct x
      end ].

Section Runs.
Context `{Helpers}.

Lemma printHookIfSet_runs prefix hook indent :
  hookRuns hook -> runs (printHookIfSet prefix hook indent).
Proof.
  intros Hh. unfold printHookIfSet. destruct hook as [h|]; [|apply runs_ret].
  apply runs_bind; [|intro; apply runs_ret].
  unfold printHook. apply runs_bind.
  - destruct (ExecNewPod h) as [e|] eqn:Ee; [|apply runs_ret].
    repeat first [ apply runs_multilineStringArray; exact (Hh h e eq_refl Ee) | runs_step ].
  - intro. repeat runs_step.
Qed.

Lemma printStrategy_runs strategy indent :
  strategyRuns strategy -> runs (printStrategy strategy indent).
Proof.
  intros [Hrec Hroll]. unfold printStrategy. apply runs_bind; [|intro; apply runs_bind].
  - destruct (CustomParams strategy) as [p|]; [|apply runs_ret].
    apply runs_bind; [repeat runs_step|]. intro.
    apply runs_bind; [repeat runs_step|]. intro.
    destruct (custom_Command p) as [|c rest]; [apply runs_ret|].
    cbn -[multilineStringArray].
    repeat first [ apply runs_multilineStringArray; discriminate | runs_step ].
  - destruct (RecreateParams strategy) as [p|]; [|apply runs_ret].
    destruct (Hrec p eq_refl) as [Hpre [Hmid Hpost]].
    repeat first [ apply printHookIfSet_runs; assumption | runs_step ].
  - intro. apply runs_bind; [|intro; apply runs_ret].
    destruct (RollingParams strategy) as [p|]; [|apply runs_ret].
    destruct (Hroll p eq_refl) as [Hpre Hpost].
    repeat first [ apply printHookIfSet_runs; assumption | runs_step ].
Qed.

Lemma printTriggers_runs triggers : Forall hasParams triggers -> runs (printTriggers triggers).
Proof.
  intros Hp. unfold printTriggers. destruct (lenL triggers =? 0); [apply runs_Fprint|].
  rewrite (triggerLabels_spec _ _ Hp). repeat runs_step.
Qed.

Lemma printAutoscalingInfo_runs res namespace name kc :
  autoscalersRun res namespace name kc -> runs (printAutoscalingInfo res namespace name kc).
Proof.
  intros Ha. unfold printAutoscalingInfo.
  destruct (HorizontalPodAutoscalers_List kc namespace) as [items|err] eqn:E;
    [|apply runs_ret].
  destruct (filter (scales res name) items) as [|hpa rest] eqn:Ef; [apply runs_ret|].
  specialize (Ha items hpa rest E Ef).
  destruct (MinReplicas hpa); [|contradiction]. repeat runs_step.
Qed.

Lemma printDeploymentRc_runs deployment kc header verbose :
  runs (printDeploymentRc deployment kc header verbose).
Proof. unfold printDeploymentRc. repeat runs_step. Qed.

Lemma describeConfig_runs kc dc : wellFormed kc dc -> runs (describeConfig kc dc).
Proof.
  intros [Htr [Hst Has]]. unfold describeConfig, printDeploymentConfigSpec, describeWarning.
  repeat first
    [ apply printAutoscalingInfo_runs; exact Has
    | apply printTriggers_runs; exact Htr
    | apply printStrategy_runs; exact Hst
    | eexists; eexists; apply describeLatestVersion_writes
    | runs_step ].
Qed.

Lemma describeBody_runs d namespace settings dc :
  wellFormed (kubeClient d) dc -> runs (describeBody d namespace settings dc).
Proof.
  intros Hwf. unfold describeBody, describeLatestDeployment.
  repeat first
    [ apply describeConfig_runs; exact Hwf
    | apply printDeploymentRc_runs
    | eexists; eexists; apply describeHistory_writes
    | apply describeEvents_writes
    | runs_step ].
Qed.

(** [Describe] returns a text and no error for every config it can get
    hold of and print. *)
Lemma Describe_returns d namespace name settings dc :
  described d namespace name dc -> wellFormed (kubeClient d) dc ->
  exists text d', Describe d namespace name settings = Some (text, None, d').
Proof.
  intros Hd Hwf. destruct (describeBody_runs d namespace settings dc Hwf) as [[e dc'] [t Hw]].
  assert (e = None) as ->.
  { pose proof (Hw "") as E. apply describeBody_begins in E as [E _]. exact E. }
  unfold Describe, described in *. destruct (config d) as [given|].
  - subst given. unfold tabbedString. rewrite Hw. now do 2 eexists.
  - rewrite Hd. unfold tabbedString. rewrite Hw. now do 2 eexists.
Qed.

(** A describer that fetches its config is the same after the call. *)
Lemma Describe_fetching d namespace name settings text err d' :
  config d = None ->
  Describe d namespace name settings = Some (text, err, d') -> d' = d.
Proof.
  intros Hc. unfold Describe. rewrite Hc.
  destruct (DeploymentConfigs_Get _ _ _) as [dc|e].
  - destruct (tabbedString _) as [[[t e] s]|]; [|discriminate].
    intros E. now injection E as _ _ <-.
  - intros E. now injection E as _ _ <-.
Qed.
End Runs.

(** C3: [Describe] returns a text for every config that it is given or
    fetches and can print, whatever deployments the cluster holds.  When the
    latest version of the config is 0, the text begins with the metadata and
    the line "Latest Version" with the value "Not deployed"; for any other
    latest version the value of that line is the version in decimal. *)
Theorem latest_version_line `{Helpers} (d : DeploymentConfigDescriber)
    (namespace name : string) (settings : DescriberSettings) (dc : DeploymentConfig) :
  described d namespace name dc ->
  wellFormed (kubeClient d) dc ->
  (LatestVersion (dc_Status dc) = 0 ->
   writes (describeLatestVersion dc) tt (formatString "Latest Version" "Not deployed")
   /\ exists rest d',
        Describe d namespace name settings
        = Some (tabwriter_Flush
                  (formatMeta (dc_Meta dc)
                   ++ formatString "Latest Version" "Not deployed" ++ rest), None, d'))
  /\ (LatestVersion (dc_Status dc) <> 0 ->
      writes (describeLatestVersion dc) tt
        (formatString "Latest Version" (FormatInt (LatestVersion (dc_Status dc))))
      /\ parseInt (FormatInt (LatestVersion (dc_Status dc))) = LatestVersion (dc_Status dc)
      /\ exists rest d',
           Describe d namespace name settings
           = Some (tabwriter_Flush
                     (formatMeta (dc_Meta dc)
                      ++ formatString "Latest Version"
                           (FormatInt (LatestVersion (dc_Status dc))) ++ rest),
                   None, d')).
Proof.
  intros Hd Hwf.
  destruct (Describe_returns d namespace name settings dc Hd Hwf) as [text [d' E]].
  destruct (Describe_text_begins d namespace name settings text None d' E)
    as [[e [_ [_ [_ Habs]]]]|[dc0 [rest [Hd0 [_ [Hzero Hother]]]]]]; [discriminate|].
  assert (dc0 = dc) as ->.
  { unfold described in Hd, Hd0. destruct (config d); congruence. }
  pose proof (describeLatestVersion_writes dc) as Hline. unfold versionText in Hline.
  split.
  - intros E0. split.
    + now rewrite E0 in Hline.
    + exists rest, d'. rewrite E. now rewrite (Hzero E0).
  - intros N0. destruct (Hother N0) as [Ht Hparse]. split; [|split].
    + apply Z.eqb_neq in N0. now rewrite N0 in Hline.
    + exact Hparse.
    + exists rest, d'. rewrite E. now rewrite Ht.
Qed.

Lemma latest_version_line_witness :
  (exists rest d',
     @Describe (helpersAt 100) (describerOf (appAt 0) []) "test" "app" noEvents
     = Some (@formatMeta (helpersAt 100) (dc_Meta (appAt 0))
               ++ "Latest Version:" ++ TAB ++ "Not deployed" ++ NL ++ rest, None, d'))
  /\ (exists rest d',
        @Describe (helpersAt 100) (describerOf (appAt 3) [app1; app2; app3])
          "test" "app" noEvents
        = Some (@formatMeta (helpersAt 100) (dc_Meta (appAt 3))
                  ++ "Latest Version:" ++ TAB ++ "3" ++ NL ++ rest, None, d'))
  /\ @wellFormed (helpersAt 100) (clusterOf [app1; app2; app3] [] []) (appAt 3)
  /\ LatestVersion (dc_Status (appAt 3)) <> 0.
Proof.
  assert (forall latest rcs,
             @wellFormed (helpersAt 100) (clusterOf rcs [] []) (appAt latest)) as Hwf.
  { intros latest rcs. split; [constructor|]. split; [split|].
    - intros p E. discriminate.
    - intros p E. injection E as <-. split; intros h e Eh; discriminate.
    - intros items hpa rest E Ef. injection E as <-. discriminate. }
  assert (LatestVersion (dc_Status (appAt 3)) <> 0) as N3 by discriminate.
  split; [|split; [|split]].
  - exact (proj2 (proj1 (@latest_version_line (helpersAt 100) (describerOf (appAt 0) [])
                           "test" "app" noEvents (appAt 0) eq_refl (Hwf 0 []))
                    eq_refl)).
  - exact (proj2 (proj2 (proj2 (@latest_version_line (helpersAt 100)
                                  (describerOf (appAt 3) [app1; app2; app3])
                                  "test" "app" noEvents (appAt 3) eq_refl
                                  (Hwf 3 [app1; app2; app3]))
                           N3))).
  - apply Hwf.
  - exact N3.
Defined.

(** * Further properties of the describer *)

(** ** Pod counts *)

Lemma podsIn_cons (phase : string) (pod : Pod) (rest : list Pod) :
  podsIn phase (pod :: rest)
  = (if String.eqb (pod_Phase pod) phase then 1 else 0) + podsIn phase rest.
Proof.
  unfold podsIn, lenL. cbn [filter].
  destruct (String.eqb (pod_Phase pod) phase); cbn [List.length]; lia.
Qed.

Lemma podsIn_nonneg (phase : string) (pods : list Pod) : 0 <= podsIn phase pods.
Proof. unfold podsIn, lenL. lia. Qed.

Ltac phase_cases pod :=
  destruct (String.eqb_spec (pod_Phase pod) PodRunning) as [?E|?N];
  [|destruct (String.eqb_spec (pod_Phase pod) PodPending) as [?E|?N];
    [|destruct (String.eqb_spec (pod_Phase pod) PodSucceeded) as [?E|?N];
      [|destruct (String.eqb_spec (pod_Phase pod) PodFailed) as [?E|?N]]]];
  try match goal with
      | E : pod_Phase pod = _ |- _ =>
          rewrite E in *;
          cbn [String.eqb Ascii.eqb Bool.eqb PodRunning PodPending PodSucceeded
                 PodFailed andb] in *
      end.

Lemma countPhase_fold (pods : list Pod) (running waiting succeeded failed : Z) :
  fold_left countPhase pods (running, waiting, succeeded, failed)
  = (running + podsIn PodRunning pods, waiting + podsIn PodPending pods,
     succeeded + podsIn PodSucceeded pods, failed + podsIn PodFailed pods).
Proof.
  revert running waiting succeeded failed.
  induction pods as [|pod rest IH]; intros running waiting succeeded failed.
  - cbn. now rewrite !Z.add_0_r.
  - cbn [fold_left]. rewrite !podsIn_cons. unfold countPhase at 2.
    phase_cases pod; rewrite IH, ?Z.add_0_l, ?Z.add_assoc; reflexivity.
Qed.

(** The four counts cover all pods when every pod is in one of the four
    phases, and only then. *)
Lemma podsIn_total (pods : list Pod) :
  podsIn PodRunning pods + podsIn PodPending pods
  + podsIn PodSucceeded pods + podsIn PodFailed pods = lenL pods
  <-> Forall (fun pod => In (pod_Phase pod) [PodRunning; PodPending; PodSucceeded; PodFailed])
        pods.
Proof.
  assert (forall l : list Pod,
             podsIn PodRunning l + podsIn PodPending l
             + podsIn PodSucceeded l + podsIn PodFailed l <= lenL l) as Hle.
  { induction l as [|pod rest IH]; [cbn; lia|].
    rewrite !podsIn_cons. unfold lenL in *. cbn [List.length].
    phase_cases pod; lia. }
  induction pods as [|pod rest IH].
  - split; [constructor | reflexivity].
  - rewrite !podsIn_cons. unfold lenL in *. cbn [List.length].
    specialize (Hle rest). unfold lenL in Hle.
    split.
    + intros Hsum. constructor.
      * phase_cases pod; cbn [In]; try tauto. exfalso. lia.
      * apply IH. phase_cases pod; lia.
    + intros Hall. inversion Hall as [|? ? Hpod Hrest]; subst.
      apply IH in Hrest.
      phase_cases pod; try lia.
      cbn [In] in Hpod. exfalso. intuition congruence.
Qed.

Lemma getPodStatusForDeployment_listed (deployment : ReplicationController)
    (kc : KubeClient) (pods : list Pod) :
  Pods_List kc (Namespace (rc_Meta deployment)) (rc_SpecSelector deployment) = inl pods ->
  getPodStatusForDeployment deployment kc
  = (podsIn PodRunning pods, podsIn PodPending pods,
     podsIn PodSucceeded pods, podsIn PodFailed pods, None).
Proof.
  intros E. unfold getPodStatusForDeployment. rewrite E.
  rewrite countPhase_fold. reflexivity.
Qed.

(** X1: [getPodStatusForDeployment] returns the error of the pod listing
    with all counts zero; otherwise each count is the number of listed pods
    in its phase (waiting for [Pending]) and no error.  The counts sum to
    the number of pods exactly when every pod is in one of the four phases:
    a pod in any other phase is counted nowhere. *)
Theorem pod_status_counts (deployment : ReplicationController) (kc : KubeClient) :
  (forall err,
     Pods_List kc (Namespace (rc_Meta deployment)) (rc_SpecSelector deployment) = inr err ->
     getPodStatusForDeployment deployment kc = (0, 0, 0, 0, Some err))
  /\ (forall pods,
        Pods_List kc (Namespace (rc_Meta deployment)) (rc_SpecSelector deployment) = inl pods ->
        getPodStatusForDeployment deployment kc
        = (podsIn PodRunning pods, podsIn PodPending pods,
           podsIn PodSucceeded pods, podsIn PodFailed pods, None)
        /\ (podsIn PodRunning pods + podsIn PodPending pods
            + podsIn PodSucceeded pods + podsIn PodFailed pods = lenL pods
            <-> Forall (fun pod => In (pod_Phase pod)
                                     [PodRunning; PodPending; PodSucceeded; PodFailed])
                  pods)).
Proof.
  split.
  - intros err E. unfold getPodStatusForDeployment. now rewrite E.
  - intros pods E. split; [now apply getPodStatusForDeployment_listed | apply podsIn_total].
Qed.

Lemma pod_status_counts_witness :
  getPodStatusForDeployment app3 unreachableCluster
  = (0, 0, 0, 0, Some (errors_New "connection refused"))
  /\ getPodStatusForDeployment app3 (clusterWithPods [app3] fivePods) = (2, 1, 0, 1, None).
Proof.
  split.
  - exact (proj1 (pod_status_counts app3 unreachableCluster) _ eq_refl).
  - exact (proj1 (proj2 (pod_status_counts app3 (clusterWithPods [app3] fivePods))
                    fivePods eq_refl)).
Defined.

(** ** The latest deployment *)

Ltac text_eq :=
  repeat first [ rewrite append_assoc | progress cbn [append] ]; reflexivity.

Section Latest.
Context `{Helpers}.
Variable kc : KubeClient.
Variable deployment : ReplicationController.

Lemma printDeploymentRc_verbose_failing (err : error) :
  Pods_List kc (Namespace (rc_Meta deployment)) (rc_SpecSelector deployment) = inr err ->
  writes (printDeploymentRc deployment kc
            ("Deployment #" ++ FormatInt (DeploymentVersionFor deployment) ++ " (latest)")
            true)
         (Some err) (verboseBlock deployment).
Proof.
  intros E out.
  unfold printDeploymentRc, getPodStatusForDeployment. rewrite E.
  unfold bind, when, Fprint, ret, verboseBlock. cbn. f_equal. f_equal. text_eq.
Qed.

Lemma printDeploymentRc_verbose_pods (pods : list Pod) :
  Pods_List kc (Namespace (rc_Meta deployment)) (rc_SpecSelector deployment) = inl pods ->
  writes (printDeploymentRc deployment kc
            ("Deployment #" ++ FormatInt (DeploymentVersionFor deployment) ++ " (latest)")
            true)
         None (verboseBlock deployment ++ podsLine pods).
Proof.
  intros E out.
  pose proof (getPodStatusForDeployment_listed deployment kc pods E) as Hcounts.
  unfold printDeploymentRc. rewrite Hcounts.
  unfold bind, when, Fprint, ret, verboseBlock, podsLine. cbn -[podsIn].
  f_equal. f_equal. text_eq.
Qed.
End Latest.

(** X2: when the latest deployment is found, its block is written in the
    verbose form, ending with the line of the pod counts.  When its pods
    cannot be listed, the block ends after the labels: the error is dropped,
    no marker is written, and the rendering goes on. *)
Theorem latest_deployment_block `{Helpers} (kc : KubeClient) (namespace deploymentName : string)
    (deployment : ReplicationController) :
  ReplicationControllers_Get kc namespace deploymentName = inl deployment ->
  (forall pods,
     Pods_List kc (Namespace (rc_Meta deployment)) (rc_SpecSelector deployment) = inl pods ->
     writes (describeLatestDeployment kc namespace deploymentName) tt
            (verboseBlock deployment ++ podsLine pods))
  /\ (forall err,
        Pods_List kc (Namespace (rc_Meta deployment)) (rc_SpecSelector deployment) = inr err ->
        writes (describeLatestDeployment kc namespace deploymentName) tt
               (verboseBlock deployment)).
Proof.
  intros Hget. unfold describeLatestDeployment. rewrite Hget. split.
  - intros pods E. eapply writes_eq.
    + eapply writes_bind; [apply (printDeploymentRc_verbose_pods kc deployment pods E)|].
      apply writes_ret.
    + apply append_nil_r.
  - intros err E. eapply writes_eq.
    + eapply writes_bind; [apply (printDeploymentRc_verbose_failing kc deployment err E)|].
      apply writes_ret.
    + apply append_nil_r.
Qed.

Lemma latest_deployment_block_witness :
  writes (@describeLatestDeployment (helpersAt 100) (clusterWithPods [app3] fivePods)
            "test" "app-3") tt
         (@verboseBlock (helpersAt 100) app3 ++ podsLine fivePods)
  /\ writes (@describeLatestDeployment (helpersAt 100) (clusterWithoutPods [app3])
               "test" "app-3") tt
            (@verboseBlock (helpersAt 100) app3).
Proof.
  split.
  - exact (proj1 (@latest_deployment_block (helpersAt 100) (clusterWithPods [app3] fivePods)
                    "test" "app-3" app3 eq_refl) fivePods eq_refl).
  - exact (proj2 (@latest_deployment_block (helpersAt 100) (clusterWithoutPods [app3])
                    "test" "app-3" app3 eq_refl) (errors_New "pods are forbidden") eq_refl).
Defined.

(** ** More on the history *)

(** X3: every deployment in the history was listed, belongs to the config
    and is not the latest deployment; nothing is shown when the describer
    was given its config or the listing fails. *)
Theorem history_members `{Helpers} (d : DeploymentConfigDescriber) (namespace : string)
    (deploymentConfig : DeploymentConfig) (deploymentName : string) :
  exists shown,
    writes (describeHistory d namespace deploymentConfig deploymentName)
           shown (historyText shown)
    /\ (forall rc,
          In rc shown ->
          config d = None
          /\ rcName rc <> deploymentName
          /\ DeploymentConfigNameFor rc = Name (dc_Meta deploymentConfig)
          /\ exists items,
               ReplicationControllers_List (kubeClient d) namespace = inl items
               /\ In rc items)
    /\ (config d <> None -> shown = [])
    /\ (forall err,
          ReplicationControllers_List (kubeClient d) namespace = inr err -> shown = []).
Proof.
  eexists. split; [apply describeHistory_writes|].
  destruct (config d) as [given|].
  - split; [intros rc []|]. split; [reflexivity|]. intros; reflexivity.
  - destruct (ReplicationControllers_List _ _) as [items|err].
    + split; [|split; [intros N; now elim N | intros err E; discriminate]].
      intros rc Hin. apply In_firstn in Hin. apply filter_In in Hin as [Hin Hp].
      unfold isPrior in Hp. apply andb_true_iff in Hp as [Hn Hc].
      split; [reflexivity|]. split; [|split].
      * apply negb_true_iff in Hn. now apply String.eqb_neq in Hn.
      * apply String.eqb_eq in Hc. now symmetry.
      * exists items. split; [reflexivity|].
        eapply Permutation_in; [apply sortedHistory_perm | exact Hin].
    + split; [intros rc []|]. split; intros; reflexivity.
Qed.

Lemma history_members_witness :
  exists shown,
    writes (@describeHistory (helpersAt 100)
              (describerOf (appAt 3) [app1; app2; app3]) "test" (appAt 3) "app-3")
           shown (@historyText (helpersAt 100) shown)
    /\ (In app2 shown -> rcName app2 <> "app-3")
    /\ In app2 shown.
Proof.
  destruct (@history_members (helpersAt 100)
              (describerOf (appAt 3) [app1; app2; app3]) "test" (appAt 3) "app-3")
    as [shown [Hw [Hin _]]].
  exists shown. split; [exact Hw|]. split.
  - intros Hs. exact (proj1 (proj2 (Hin app2 Hs))).
  - assert (shown = [app2; app1]) as ->; [|now left].
    pose proof (@describeHistory_writes (helpersAt 100)
                  (describerOf (appAt 3) [app1; app2; app3]) "test" (appAt 3) "app-3") as Hw'.
    exact (proj1 (writes_fun _ _ _ _ _ Hw Hw')).
Defined.

(** X4: the history reads the cluster only through the listing of the
    deployments: it is the same for any two describers that agree on their
    config and on that listing, whatever their pods, events or autoscalers
    are.  No pod is queried for a prior deployment. *)
Theorem history_reads_the_listing_only `{Helpers} (d d' : DeploymentConfigDescriber)
    (namespace : string) (deploymentConfig : DeploymentConfig) (deploymentName : string) :
  config d = config d' ->
  ReplicationControllers_List (kubeClient d) namespace
  = ReplicationControllers_List (kubeClient d') namespace ->
  forall out,
    describeHistory d namespace deploymentConfig deploymentName out
    = describeHistory d' namespace deploymentConfig deploymentName out.
Proof.
  intros Hc Hl out.
  rewrite (describeHistory_writes d), (describeHistory_writes d').
  now rewrite Hc, Hl.
Qed.

Lemma history_reads_the_listing_only_witness :
  config (describerWith (oneConfig (appAt 3)) (clusterOf [app1; app2; app3] [] []))
  = config (describerWith (oneConfig (appAt 3)) (clusterWithoutPods [app1; app2; app3]))
  /\ @describeHistory (helpersAt 100)
       (describerWith (oneConfig (appAt 3)) (clusterOf [app1; app2; app3] [] []))
       "test" (appAt 3) "app-3" ""
     = @describeHistory (helpersAt 100)
         (describerWith (oneConfig (appAt 3)) (clusterWithoutPods [app1; app2; app3]))
         "test" (appAt 3) "app-3" "".
Proof.
  split; [reflexivity|].
  exact (@history_reads_the_listing_only (helpersAt 100)
           (describerWith (oneConfig (appAt 3)) (clusterOf [app1; app2; app3] [] []))
           (describerWith (oneConfig (appAt 3)) (clusterWithoutPods [app1; app2; app3]))
           "test" (appAt 3) "app-3" eq_refl eq_refl "").
Defined.

(** ** More on the events *)

(** X5: the event section is absent when events are not asked for, when
    the search fails and when it returns no list.  With an empty list the
    section is still written: a blank line and the rendering of no events.
    Up to eight events are all shown, newest first. *)
Theorem events_edge_cases `{Helpers} (kc : KubeClient) (settings : DescriberSettings)
    (deploymentConfig : DeploymentConfig) :
  (ShowEvents settings = false ->
   writes (describeEvents kc settings deploymentConfig) [] "")
  /\ (forall err,
        Events_Search kc (Namespace (dc_Meta deploymentConfig)) deploymentConfig = inr err ->
        writes (describeEvents kc settings deploymentConfig) [] "")
  /\ (Events_Search kc (Namespace (dc_Meta deploymentConfig)) deploymentConfig = inl None ->
      writes (describeEvents kc settings deploymentConfig) [] "")
  /\ (forall items,
        ShowEvents settings = true ->
        Events_Search kc (Namespace (dc_Meta deploymentConfig)) deploymentConfig
        = inl (Some items) ->
        lenL items <= maxDisplayDeploymentsEvents ->
        writes (describeEvents kc settings deploymentConfig)
               (rev items) (NL ++ DescribeEvents (rev items))).
Proof.
  unfold describeEvents. repeat split.
  - intros ->. apply writes_ret.
  - intros err ->. destruct (ShowEvents settings); apply writes_ret.
  - intros ->. destruct (ShowEvents settings); apply writes_ret.
  - intros items -> -> Hlen. rewrite latestEvents_all.
    rewrite firstn_all2 by (unfold lenL, maxDisplayDeploymentsEvents in Hlen;
                            rewrite length_rev; lia).
    eapply writes_eq.
    + eapply writes_bind; [apply writes_ret|].
      eapply writes_bind; [apply writes_Fprint|].
      eapply writes_bind; [apply writes_Fprint | apply writes_ret].
    + cbn. now rewrite append_nil_r.
Qed.

Lemma events_edge_cases_witness :
  writes (@describeEvents (helpersAt 100) (clusterOf [] [] tenEvents) noEvents (appAt 0)) [] ""
  /\ writes (@describeEvents (helpersAt 100) unreachableCluster withEvents (appAt 0)) [] ""
  /\ writes (@describeEvents (helpersAt 100) (clusterOf [] [] []) withEvents (appAt 0))
            [] (NL ++ @DescribeEvents (helpersAt 100) [])
  /\ writes (@describeEvents (helpersAt 100) (clusterOf [] [] (map eventNo [1; 2; 3]))
               withEvents (appAt 0))
            (map eventNo [3; 2; 1]) (NL ++ @DescribeEvents (helpersAt 100) (map eventNo [3; 2; 1])).
Proof.
  split; [|split; [|split]].
  - exact (proj1 (@events_edge_cases (helpersAt 100) (clusterOf [] [] tenEvents) noEvents
                    (appAt 0)) eq_refl).
  - exact (proj1 (proj2 (@events_edge_cases (helpersAt 100) unreachableCluster withEvents
                           (appAt 0))) _ eq_refl).
  - refine (proj2 (proj2 (proj2 (@events_edge_cases (helpersAt 100) (clusterOf [] [] [])
                                   withEvents (appAt 0)))) [] eq_refl eq_refl _).
    vm_compute. discriminate.
  - refine (proj2 (proj2 (proj2 (@events_edge_cases (helpersAt 100)
                                   (clusterOf [] [] (map eventNo [1; 2; 3]))
                                   withEvents (appAt 0))))
              (map eventNo [1; 2; 3]) eq_refl eq_refl _).
    vm_compute. discriminate.
Defined.

(** ** More on autoscaling *)

(** X6: an autoscaler counts for the resource exactly when its scale
    reference has the name asked for and the kind the resource prints as
    (the resource alone when its group is empty); when no listed autoscaler
    counts, nothing is written. *)
Theorem autoscaling_none (res : GroupResource) (namespace name : string) (kc : KubeClient) :
  (forall hpa,
     scales res name hpa = true
     <-> scale_Name (ScaleRef hpa) = name
         /\ scale_Kind (ScaleRef hpa) = GroupResource_String res)
  /\ (Group res = "" -> GroupResource_String res = Resource res)
  /\ (forall items,
        HorizontalPodAutoscalers_List kc namespace = inl items ->
        Forall (fun hpa => scale_Name (ScaleRef hpa) <> name
                           \/ scale_Kind (ScaleRef hpa) <> GroupResource_String res) items ->
        writes (printAutoscalingInfo res namespace name kc) tt "").
Proof.
  assert (forall hpa,
             scales res name hpa = true
             <-> scale_Name (ScaleRef hpa) = name
                 /\ scale_Kind (ScaleRef hpa) = GroupResource_String res) as Hscales.
  { intros hpa. unfold scales. now rewrite andb_true_iff, !String.eqb_eq. }
  split; [exact Hscales|]. split.
  - intros E. unfold GroupResource_String. now rewrite E.
  - intros items E Hall. unfold printAutoscalingInfo. rewrite E.
    assert (filter (scales res name) items = []) as ->; [|apply writes_ret].
    clear E. induction Hall as [|hpa rest Hhpa _ IH]; cbn [filter]; [reflexivity|].
    destruct (scales res name hpa) eqn:Es; [|exact IH].
    apply Hscales in Es. tauto.
Qed.

Lemma autoscaling_none_witness :
  writes (printAutoscalingInfo (@deployapi_Resource (helpersAt 100) "DeploymentConfig")
            "test" "app"
            (clusterOf [] [autoscalerOf "db" 1 2 None; controllerAutoscaler "app"] []))
         tt "".
Proof.
  refine (proj2 (proj2 (autoscaling_none
                          (@deployapi_Resource (helpersAt 100) "DeploymentConfig")
                          "test" "app"
                          (clusterOf [] [autoscalerOf "db" 1 2 None;
                                         controllerAutoscaler "app"] [])))
            [autoscalerOf "db" 1 2 None; controllerAutoscaler "app"] eq_refl _).
  constructor; [left; discriminate|].
  constructor; [right; vm_compute; discriminate | constructor].
Defined.

(** ** More on the multi-line formatter *)

Lemma length_append (s t : string) :
  String.length (s ++ t) = (String.length s + String.length t)%nat.
Proof. induction s as [|c s IH]; cbn; [reflexivity | now rewrite IH]. Qed.

Lemma substring_whole (t : string) : substring 0 (String.length t) t = t.
Proof. induction t as [|c t IH]; cbn; [reflexivity | now rewrite IH]. Qed.

Lemma substring_append_end (s t : string) :
  substring (String.length s) (String.length t) (s ++ t) = t.
Proof. induction s as [|c s IH]; cbn; [apply substring_whole | exact IH]. Qed.

Lemma substring_append_start (s t : string) : substring 0 (String.length s) (s ++ t) = s.
Proof.
  induction s as [|c s IH]; cbn.
  - now destruct t.
  - now rewrite IH.
Qed.

Lemma HasSuffix_append (s t : string) : strings_HasSuffix (s ++ t) t = true.
Proof.
  unfold strings_HasSuffix. rewrite length_append.
  replace (String.length s + String.length t - String.length t)%nat
    with (String.length s) by lia.
  rewrite substring_append_end, String.eqb_refl.
  apply andb_true_iff. split; [apply Nat.leb_le; lia | reflexivity].
Qed.

Lemma TrimSuffix_append (s t : string) : strings_TrimSuffix (s ++ t) t = s.
Proof.
  unfold strings_TrimSuffix. rewrite HasSuffix_append, length_append.
  replace (String.length s + String.length t - String.length t)%nat
    with (String.length s) by lia.
  apply substring_append_start.
Qed.

(** A token of one line that ends with a newline loses the newline. *)
Lemma reflow_trailing_newline (indent s : string) :
  oneLine s -> reflow indent (s ++ NL) = s.
Proof.
  intros Hs. unfold reflow. rewrite HasSuffix_append, TrimSuffix_append.
  unfold oneLine in Hs. now rewrite Hs.
Qed.

(** X7: [multilineStringArray] panics without tokens; otherwise it joins
    the reflowed tokens with single spaces, whatever [sep] is, and leaves
    them in the caller's slice.  A token of one line is left as it is, and
    one that only ends with a newline loses that newline; so tokens of one
    line give the plain join and an unchanged slice. *)
Theorem formatter_tokens (sep indent : string) :
  multilineStringArray sep indent [] = None
  /\ (forall args,
        args <> [] ->
        multilineStringArray sep indent args
        = Some (strings_Join (map (reflow indent) args) " ", map (reflow indent) args))
  /\ (forall s, oneLine s -> reflow indent s = s /\ reflow indent (s ++ NL) = s)
  /\ (forall args,
        args <> [] -> Forall oneLine args ->
        multilineStringArray sep indent args = Some (strings_Join args " ", args)).
Proof.
  split; [reflexivity|]. split; [apply multilineStringArray_joins|]. split.
  - intros s Hs. split; [now apply reflow_oneLine | now apply reflow_trailing_newline].
  - apply multilineStringArray_oneLine.
Qed.

Lemma formatter_tokens_witness :
  multilineStringArray "," (TAB ++ "  ") ["rake"; "db:migrate" ++ NL]
  = Some ("rake db:migrate", ["rake"; "db:migrate"])
  /\ multilineStringArray "," (TAB ++ "  ") ["rake"; "db:migrate"]
     = Some ("rake db:migrate", ["rake"; "db:migrate"]).
Proof.
  assert (oneLine "db:migrate") as Hs by reflexivity.
  destruct (formatter_tokens "," (TAB ++ "  ")) as [_ [Hjoin [Hflow Hplain]]].
  split.
  - rewrite Hjoin by discriminate. cbn [map].
    rewrite (proj2 (Hflow "db:migrate" Hs)).
    rewrite (proj1 (Hflow "rake" eq_refl)). reflexivity.
  - apply Hplain; [discriminate | repeat constructor].
Defined.

(** ** The custom strategy *)

(** X8: for a strategy with custom parameters only, [printStrategy] never
    panics: it writes the image, "<default>" for an empty one, the
    environment and the command, each of the latter two only when it is not
    empty. *)
Theorem custom_strategy_lines `{Helpers} (strategy : DeploymentStrategy) (indent : string)
    (p : CustomDeploymentStrategyParams) :
  CustomParams strategy = Some p ->
  RecreateParams strategy = None ->
  RollingParams strategy = None ->
  exists strategy',
    writes (printStrategy strategy indent) strategy' (customLines indent p)
    /\ (len (custom_Image p) = 0 ->
        exists rest, customLines indent p = indent ++ "Image:" ++ TAB ++ "<default>" ++ NL ++ rest).
Proof.
  intros Ec Er Eo. unfold printStrategy. rewrite Ec, Er, Eo.
  assert (writes
            (if len (custom_Image p) =? 0
             then Fprint (indent ++ "Image:" ++ TAB ++ "<default>" ++ NL)
             else Fprint (indent ++ "Image:" ++ TAB ++ custom_Image p ++ NL))
            tt (indent ++ "Image:" ++ TAB
                  ++ (if len (custom_Image p) =? 0 then "<default>" else custom_Image p)
                  ++ NL)) as Himage
    by (destruct (len (custom_Image p) =? 0); apply writes_Fprint).
  assert (writes
            (when (0 <? lenL (custom_Environment p))
               (Fprint (indent ++ "Environment:" ++ TAB
                          ++ formatLabels (convertEnv (custom_Environment p)) ++ NL)))
            tt (match custom_Environment p with
                | [] => ""
                | env => indent ++ "Environment:" ++ TAB
                           ++ formatLabels (convertEnv env) ++ NL
                end)) as Henv
    by (destruct (custom_Environment p); [apply writes_ret | apply writes_Fprint]).
  destruct (custom_Command p) as [|c command] eqn:Ecmd.
  - eexists. split.
    + eapply writes_eq.
      * eapply writes_bind.
        -- eapply writes_bind; [exact Himage|].
           eapply writes_bind; [exact Henv | apply writes_ret].
        -- eapply writes_bind; [apply writes_ret|].
           eapply writes_bind; [apply writes_ret | apply writes_ret].
      * unfold customLines. rewrite Ecmd, !append_assoc, !append_nil_r. reflexivity.
    + intros E. unfold customLines. rewrite E. eexists. cbn [Z.eqb]. reflexivity.
  - eexists. split.
    + eapply writes_eq.
      * eapply writes_bind.
        -- eapply writes_bind; [exact Himage|].
           eapply writes_bind; [exact Henv|].
           replace (0 <? lenL (c :: command)) with true by reflexivity.
           rewrite multilineStringArray_joins by discriminate. cbn [liftOption].
           eapply writes_bind; [apply writes_ret|].
           eapply writes_bind; [apply writes_Fprint | apply writes_ret].
        -- eapply writes_bind; [apply writes_ret|].
           eapply writes_bind; [apply writes_ret | apply writes_ret].
      * unfold customLines. rewrite Ecmd, !append_assoc, !append_nil_r. reflexivity.
    + intros E. unfold customLines. rewrite E. eexists. cbn [Z.eqb]. reflexivity.
Qed.

Lemma custom_strategy_lines_witness :
  exists strategy',
    writes (@printStrategy (helpersAt 100) (customStrategy []) "  ") strategy'
           ("  Image:" ++ TAB ++ "<default>" ++ NL).
Proof.
  destruct (@custom_strategy_lines (helpersAt 100) (customStrategy []) "  "
              {| custom_Image := ""; custom_Environment := []; custom_Command := [] |}
              eq_refl eq_refl eq_refl) as [strategy' [Hw _]].
  exists strategy'. exact Hw.
Defined.

(** ** When [Describe] panics *)

Lemma panics_bind_l {A B} (m : W A) (k : A -> W B) : panics m -> panics (bind m k).
Proof. intros Hm out. unfold bind. now rewrite Hm. Qed.

Lemma panics_bind_r {A B} (m : W A) (k : A -> W B) :
  (forall a, panics (k a)) -> panics (bind m k).
Proof.
  intros Hk out. unfold bind. destruct (m out) as [[a out']|]; [apply Hk | reflexivity].
Qed.

Lemma panics_not_runs {A} (m : W A) : panics m -> runs m -> False.
Proof. intros Hp [a [t Hw]]. specialize (Hw ""). rewrite Hp in Hw. discriminate. Qed.

Lemma hook_cases (hook : option LifecycleHook) : hookRuns hook \/ hookBroken hook.
Proof.
  destruct hook as [h|]; [|left; intros ? ? E; discriminate].
  destruct (ExecNewPod h) as [e|] eqn:Ee.
  - destruct (exec_Command e) as [|c cs] eqn:Ec.
    + right. now exists h, e.
    + left. intros h' e' Eh Ee'. injection Eh as <-. rewrite Ee in Ee'.
      injection Ee' as <-. now rewrite Ec.
  - left. intros h' e' Eh Ee'. injection Eh as <-. congruence.
Qed.

Lemma trigger_cases (t : DeploymentTriggerPolicy) : hasParams t \/ triggerBroken t.
Proof.
  unfold hasParams, triggerBroken.
  destruct (String.eqb_spec (trigger_Type t) DeploymentTriggerOnImageChange) as [E|N].
  - destruct (ImageChangeParams t); [left; discriminate | right; tauto].
  - left. intros E. contradiction.
Qed.

Lemma triggers_cases (triggers : list DeploymentTriggerPolicy) :
  Forall hasParams triggers \/ Exists triggerBroken triggers.
Proof.
  induction triggers as [|t rest [IH|IH]].
  - left. constructor.
  - destruct (trigger_cases t) as [Ht|Ht]; [left | right]; now constructor.
  - right. now constructor.
Qed.

Section Panics.
Context `{Helpers}.

Lemma printHookIfSet_panics prefix hook indent :
  hookBroken hook -> panics (printHookIfSet prefix hook indent).
Proof.
  intros [h [e [-> [Ee Ec]]]]. unfold printHookIfSet, printHook.
  apply panics_bind_l, panics_bind_l. rewrite Ee, Ec.
  apply panics_bind_r; intro. apply panics_bind_r; intro. apply panics_bind_l.
  intros out. reflexivity.
Qed.

Lemma triggerLabels_broken triggers :
  Exists triggerBroken triggers -> forall labels, triggerLabels triggers labels = None.
Proof.
  induction 1 as [t rest [Et Ep]|t rest _ IH]; intros labels; cbn [triggerLabels].
  - rewrite Et, Ep. reflexivity.
  - destruct (String.eqb _ _); [apply IH|].
    destruct (String.eqb _ _); [|apply IH].
    destruct (ImageChangeParams t) as [p|]; [|reflexivity].
    destruct (0 <? _); [|apply IH].
    destruct (SplitImageStreamTag _) as [[n tg] ok]. apply IH.
Qed.

Lemma printTriggers_cases triggers :
  Forall hasParams triggers \/ panics (printTriggers triggers).
Proof.
  destruct (triggers_cases triggers) as [Hp|Hb]; [now left | right].
  unfold printTriggers. destruct triggers as [|t rest]; [inversion Hb|].
  replace (lenL (t :: rest) =? 0) with false
    by (symmetry; apply Z.eqb_neq; unfold lenL; cbn [List.length]; lia).
  apply panics_bind_l. rewrite (triggerLabels_broken _ Hb). intros out. reflexivity.
Qed.

Lemma printStrategy_cases strategy indent :
  strategyRuns strategy \/ panics (printStrategy strategy indent).
Proof.
  unfold strategyRuns, printStrategy.
  destruct (RecreateParams strategy) as [r|].
  - destruct (hook_cases (recreate_Pre r)) as [Hpre|Hpre].
    2:{ right. apply panics_bind_r; intro. apply panics_bind_l, panics_bind_l.
        now apply printHookIfSet_panics. }
    destruct (hook_cases (recreate_Mid r)) as [Hmid|Hmid].
    2:{ right. apply panics_bind_r; intro. apply panics_bind_l.
        apply panics_bind_r; intro. apply panics_bind_l.
        now apply printHookIfSet_panics. }
    destruct (hook_cases (recreate_Post r)) as [Hpost|Hpost].
    2:{ right. apply panics_bind_r; intro. apply panics_bind_l.
        apply panics_bind_r; intro. apply panics_bind_r; intro. apply panics_bind_l.
        now apply printHookIfSet_panics. }
    destruct (RollingParams strategy) as [o|].
    + destruct (hook_cases (rolling_Pre o)) as [Hp|Hp].
      2:{ right. apply panics_bind_r; intro. apply panics_bind_r; intro.
          apply panics_bind_l, panics_bind_l. now apply printHookIfSet_panics. }
      destruct (hook_cases (rolling_Post o)) as [Hq|Hq].
      2:{ right. apply panics_bind_r; intro. apply panics_bind_r; intro.
          apply panics_bind_l. apply panics_bind_r; intro. apply panics_bind_l.
          now apply printHookIfSet_panics. }
      left. split; intros p E; injection E as <-; tauto.
    + left. split; intros p E; [injection E as <-; tauto | discriminate].
  - destruct (RollingParams strategy) as [o|].
    + destruct (hook_cases (rolling_Pre o)) as [Hp|Hp].
      2:{ right. apply panics_bind_r; intro. apply panics_bind_r; intro.
          apply panics_bind_l, panics_bind_l. now apply printHookIfSet_panics. }
      destruct (hook_cases (rolling_Post o)) as [Hq|Hq].
      2:{ right. apply panics_bind_r; intro. apply panics_bind_r; intro.
          apply panics_bind_l. apply panics_bind_r; intro. apply panics_bind_l.
          now apply printHookIfSet_panics. }
      left. split; intros p E; [discriminate | injection E as <-; tauto].
    + left. split; intros p E; discriminate.
Qed.

Lemma printAutoscalingInfo_cases res namespace name kc :
  autoscalersRun res namespace name kc
  \/ panics (printAutoscalingInfo res namespace name kc).
Proof.
  unfold autoscalersRun, printAutoscalingInfo.
  destruct (HorizontalPodAutoscalers_List kc namespace) as [items|err];
    [|left; intros; discriminate].
  destruct (filter (scales res name) items) as [|hpa rest] eqn:Ef.
  - left. intros items' hpa' rest' E Ef'. injection E as <-. congruence.
  - destruct (MinReplicas hpa) as [m|] eqn:Em.
    + left. intros items' hpa' rest' E Ef'. injection E as <-.
      rewrite Ef in Ef'. injection Ef' as <- _. congruence.
    + right. apply panics_bind_l. intros out. reflexivity.
Qed.

Lemma describeConfig_cases kc dc : wellFormed kc dc \/ panics (describeConfig kc dc).
Proof.
  unfold wellFormed, describeConfig, printDeploymentConfigSpec.
  destruct (printAutoscalingInfo_cases (deployapi_Resource "DeploymentConfig")
              (Namespace (dc_Meta dc)) (Name (dc_Meta dc)) kc) as [Ha|Ha].
  2:{ right. apply panics_bind_r; intro. apply panics_bind_r; intro. apply panics_bind_l.
      apply panics_bind_r; intro. apply panics_bind_r; intro. now apply panics_bind_l. }
  destruct (printTriggers_cases (Triggers (dc_Spec dc))) as [Ht|Ht].
  2:{ right. apply panics_bind_r; intro. apply panics_bind_r; intro. apply panics_bind_l.
      apply panics_bind_r; intro. apply panics_bind_r; intro.
      apply panics_bind_r; intro. now apply panics_bind_l. }
  destruct (printStrategy_cases (Strategy (dc_Spec dc)) "  ") as [Hs|Hs].
  2:{ right. apply panics_bind_r; intro. apply panics_bind_r; intro. apply panics_bind_l.
      apply panics_bind_r; intro. apply panics_bind_r; intro.
      apply panics_bind_r; intro. apply panics_bind_r; intro.
      apply panics_bind_r; intro. now apply panics_bind_l. }
  left. tauto.
Qed.
End Panics.

(** X9: [Describe] panics exactly on a config that it cannot print: one
    with an image-change trigger without parameters, with a pre, mid or post
    hook that runs a pod without a command, or for which the first listed
    autoscaler that targets it has no minimum.  On every other config that it is given or
    fetches it returns a text and no error. *)
Theorem describe_panics_exactly `{Helpers} (d : DeploymentConfigDescriber)
    (namespace name : string) (settings : DescriberSettings) (dc : DeploymentConfig) :
  described d namespace name dc ->
  (Describe d namespace name settings = None <-> ~ wellFormed (kubeClient d) dc)
  /\ (wellFormed (kubeClient d) dc ->
      exists text d', Describe d namespace name settings = Some (text, None, d'))
  /\ (wellFormed (kubeClient d) dc
      <-> Forall hasParams (Triggers (dc_Spec dc))
          /\ (forall p, RecreateParams (Strategy (dc_Spec dc)) = Some p ->
                        ~ hookBroken (recreate_Pre p) /\ ~ hookBroken (recreate_Mid p)
                        /\ ~ hookBroken (recreate_Post p))
          /\ (forall p, RollingParams (Strategy (dc_Spec dc)) = Some p ->
                        ~ hookBroken (rolling_Pre p) /\ ~ hookBroken (rolling_Post p))
          /\ (forall items hpa rest,
                HorizontalPodAutoscalers_List (kubeClient d) (Namespace (dc_Meta dc))
                = inl items ->
                filter (scales (deployapi_Resource "DeploymentConfig") (Name (dc_Meta dc)))
                  items = hpa :: rest ->
                MinReplicas hpa <> None)).
Proof.
  intros Hd.
  assert (forall hook, hookRuns hook <-> ~ hookBroken hook) as Hhook.
  { intros hook. split.
    - intros Hr [h [e [Eh [Ee Ec]]]]. exact (Hr h e Eh Ee Ec).
    - intros Hn. destruct (hook_cases hook) as [Hr|Hb]; [exact Hr | contradiction]. }
  split; [|split].
  - split.
    + intros E Hwf. destruct (Describe_returns d namespace name settings dc Hd Hwf)
        as [text [d' E']]. congruence.
    + intros Hn. destruct (describeConfig_cases (kubeClient d) dc) as [Hwf|Hp];
        [contradiction|].
      assert (describeBody d namespace settings dc "" = None) as Hbody
        by (unfold describeBody; now apply panics_bind_l).
      unfold Describe, described in *. destruct (config d) as [given|].
      * subst given. unfold tabbedString. now rewrite Hbody.
      * rewrite Hd. unfold tabbedString. now rewrite Hbody.
  - apply Describe_returns. exact Hd.
  - unfold wellFormed, strategyRuns, autoscalersRun.
    setoid_rewrite Hhook. tauto.
Qed.

Lemma describe_panics_exactly_witness :
  described (describerGiven (configOf "app" 1 [] (recreateWithHook []))) "test" "app"
    (configOf "app" 1 [] (recreateWithHook []))
  /\ @Describe (helpersAt 100) (describerGiven (configOf "app" 1 [] (recreateWithHook [])))
       "test" "app" noEvents = None
  /\ exists text d',
       @Describe (helpersAt 100)
         (describerGiven (configOf "app" 1 [] (recreateWithHook ["true"])))
         "test" "app" noEvents = Some (text, None, d').
Proof.
  split; [reflexivity|]. split.
  - destruct (@describe_panics_exactly (helpersAt 100)
                (describerGiven (configOf "app" 1 [] (recreateWithHook []))) "test" "app"
                noEvents (configOf "app" 1 [] (recreateWithHook [])) eq_refl)
      as [Hnone [_ Hwf]].
    apply Hnone. intros Hw. apply Hwf in Hw as [_ [Hrec _]].
    destruct (Hrec _ eq_refl) as [Hpre _]. apply Hpre.
    do 2 eexists. split; [reflexivity|]. split; reflexivity.
  - destruct (@describe_panics_exactly (helpersAt 100)
                (describerGiven (configOf "app" 1 [] (recreateWithHook ["true"])))
                "test" "app" noEvents (configOf "app" 1 [] (recreateWithHook ["true"]))
                eq_refl)
      as [_ [Hsome Hwf]].
    apply Hsome, Hwf. split; [constructor|]. split; [|split].
    + intros p E. injection E as <-.
      repeat split; intros [h [e [Eh [Ee Ec]]]]; try discriminate.
      injection Eh as <-. injection Ee as <-. discriminate.
    + intros p E. discriminate.
    + intros items hpa rest E Ef. injection E as <-. discriminate.
Defined.

(** ** Rendering twice, tokens of one line *)

Lemma yields_ret {A} (a : A) : yields (ret a) a.
Proof. intros out b out' E. now injection E as <- _. Qed.

Lemma yields_bind {A B} (m : W A) (k : A -> W B) (a : A) (b : B) :
  yields m a -> yields (k a) b -> yields (bind m k) b.
Proof.
  intros Hm Hk out b' out' E. unfold bind in E.
  destruct (m out) as [[a' out1]|] eqn:E1; [|discriminate].
  apply Hm in E1. subst a'. now apply Hk in E.
Qed.

Lemma yields_bind_any {A B} (m : W A) (k : A -> W B) (b : B) :
  (forall a, yields (k a) b) -> yields (bind m k) b.
Proof.
  intros Hk out b' out' E. unfold bind in E.
  destruct (m out) as [[a' out1]|]; [|discriminate]. now apply Hk in E.
Qed.


Section OneLine.
Context `{Helpers}.



End OneLine.



(** * Further properties of the user registry *)

Lemma eqlistA_eq {A} (l l' : list A) : eqlistA Logic.eq l l' -> l = l'.
Proof. induction 1; [reflexivity | now subst]. Qed.

Lemma StringSet_elements_ext (s s' : StringSet.t) :
  (forall g, StringSet.In g s <-> StringSet.In g s') ->
  StringSet.elements s = StringSet.elements s'.
Proof.
  intros Hext. apply eqlistA_eq.
  apply (@SortA_equivlistA_eqlistA string Logic.eq _ String_as_OT.lt
           String_as_OT.lt_strorder String_as_OT.lt_compat).
  - apply StringSet.elements_spec2.
  - apply StringSet.elements_spec2.
  - intros g. rewrite !StringSet.elements_spec1. apply Hext.
Qed.

(** X11: the groups of the virtual user depend on the context groups as a
    set only, not on their order or repetition; they stand sorted strictly
    ascending in the lexical order, so without duplicates. *)
Theorem virtual_groups_canonical `{UserPolicy} (user : UserInfo) :
  (forall user',
     (forall g, In g (GetGroups user) <-> In g (GetGroups user')) ->
     virtualGroups user = virtualGroups user')
  /\ Sorted String_as_OT.lt (virtualGroups user)
  /\ NoDup (virtualGroups user).
Proof.
  split; [|split].
  - intros user' Hsame. unfold virtualGroups, sets_List.
    apply StringSet_elements_ext. intros g.
    rewrite !sets_Delete_spec, !sets_NewString_spec, Hsame. reflexivity.
  - apply StringSet.elements_spec2.
  - unfold virtualGroups, sets_List.
    pose proof (StringSet.elements_spec2w
                  (sets_Delete (sets_NewString (GetGroups user))
                     [UnauthenticatedGroup; AuthenticatedGroup])) as Hnd.
    induction Hnd as [|g l Hg _ IH]; constructor; [|exact IH].
    intros Hin. apply Hg. now apply InA_eq_In.
Qed.

Lemma virtual_groups_canonical_witness :
  @virtualGroups policy
    {| GetName := "bob"; GetGroups := ["qa"; "system:authenticated"; "dev"; "qa"] |}
  = @virtualGroups policy {| GetName := "bob"; GetGroups := ["dev"; "qa"; "system:authenticated"] |}.
Proof.
  apply (proj1 (@virtual_groups_canonical policy
                  {| GetName := "bob";
                     GetGroups := ["qa"; "system:authenticated"; "dev"; "qa"] |})).
  intros g. cbn. intuition.
Defined.

(** X12: [Get] reads the store at most once, and only under a name that
    passed the validation of user names: the authenticated name for "~",
    the name asked for otherwise. *)
Theorem get_reads_store_once `{UserPolicy} (r : REST) (ctx : Context) (name : string)
    (result : option User * option error) (seen : list string) :
  Get r ctx name = (result, seen) ->
  (List.length seen <= 1)%nat
  /\ forall n,
       In n seen ->
       fst (ValidateUserName n false) = true
       /\ (name <> "~" -> n = name)
       /\ (name = "~" -> exists user, UserFrom ctx = Some user /\ GetName user = n).
Proof.
  unfold Get. destruct (String.eqb_spec name "~") as [E|N].
  - destruct (UserFrom ctx) as [user|] eqn:Eu.
    2:{ intros E'. injection E' as _ <-. split; [cbn; lia | intros n []]. }
    destruct (String.eqb (GetName user) "").
    { intros E'. injection E' as _ <-. split; [cbn; lia | intros n []]. }
    destruct (fst (ValidateUserName (GetName user) false)) eqn:Ev; cbn [negb].
    2:{ intros E'. injection E' as _ <-. split; [cbn; lia | intros n []]. }
    assert (seen = [GetName user] -> (List.length seen <= 1)%nat
            /\ forall n, In n seen ->
                 fst (ValidateUserName n false) = true
                 /\ (name <> "~" -> n = name)
                 /\ (name = "~" -> exists user0, Some user = Some user0
                                                 /\ GetName user0 = n)) as Hseen.
    { intros ->. split; [cbn; lia|]. intros n [<-|[]].
      split; [exact Ev|]. split; [intros; contradiction|].
      intros _. exists user. split; reflexivity. }
    unfold andThen, storeGet.
    destruct (Store_Get (rest_Store r) ctx (GetName user)) as [obj [e|]].
    + destruct (IsNotFound e); unfold answer; cbn [negb app];
        intros E'; injection E' as _ <-; now apply Hseen.
    + unfold answer. cbn [app]. intros E'. injection E' as _ <-. now apply Hseen.
  - destruct (ValidateUserName name false) as [ok details] eqn:Ev.
    destruct ok; cbn [negb].
    + unfold storeGet. intros E'. injection E' as _ <-.
      split; [cbn; lia|]. intros n [<-|[]]. rewrite Ev. cbn [fst].
      repeat split; trivial. intros; contradiction.
    + intros E'. injection E' as _ <-. split; [cbn; lia | intros n []].
Qed.

Lemma get_reads_store_once_witness :
  @Get policy store (contextOf "bob" ["developers"]) "~"
  = ((Some (virtualUser "bob" ["developers"]), None), ["bob"])
  /\ fst (@ValidateUserName policy "bob" false) = true.
Proof.
  split; [reflexivity|].
  exact (proj1 (proj2 (@get_reads_store_once policy store (contextOf "bob" ["developers"])
                         "~" _ ["bob"] eq_refl) "bob" (or_introl eq_refl))).
Defined.

(** X13: for a valid name other than "~", [Get] hands on what the store
    answers, an object or an error, a not-found error included: no virtual
    user is made up for a name asked for.  For "~" and an authenticated user
    of valid name that the store holds, it hands on the stored object, not
    the context's groups. *)
Theorem get_returns_stored `{UserPolicy} (r : REST) (ctx : Context) :
  (forall name,
     name <> "~" ->
     fst (ValidateUserName name false) = true ->
     Get r ctx name = (Store_Get (rest_Store r) ctx name, [name]))
  /\ (forall user obj,
        UserFrom ctx = Some user ->
        GetName user <> "" ->
        fst (ValidateUserName (GetName user) false) = true ->
        Store_Get (rest_Store r) ctx (GetName user) = (obj, None) ->
        Get r ctx "~" = ((obj, None), [GetName user])).
Proof.
  split.
  - intros name Hname Hv. unfold Get.
    destruct (String.eqb_spec name "~") as [E|_]; [contradiction|].
    destruct (ValidateUserName name false) as [ok details]. cbn in Hv. subst ok.
    reflexivity.
  - intros user obj Eu Hname Hv Es. unfold Get. cbn [String.eqb Ascii.eqb Bool.eqb].
    rewrite Eu. destruct (String.eqb_spec (GetName user) "") as [E|_]; [contradiction|].
    rewrite Hv. cbn [negb]. unfold andThen, storeGet. rewrite Es. reflexivity.
Qed.

Lemma get_returns_stored_witness :
  @Get policy store anonymous "dave" = ((None, Some (notFound "dave")), ["dave"])
  /\ @Get policy store (contextOf "alice" ["developers"]) "~"
     = ((Some (storedUser "alice"), None), ["alice"]).
Proof.
  split.
  - assert ("dave" <> "~") as Hname by discriminate.
    exact (proj1 (@get_returns_stored policy store anonymous) "dave" Hname eq_refl).
  - assert ("alice" <> "") as Hname by discriminate.
    exact (proj2 (@get_returns_stored policy store (contextOf "alice" ["developers"]))
             _ (Some (storedUser "alice")) eq_refl Hname eq_refl eq_refl).
Defined.

(** * Further properties of the printing helpers *)

Lemma forEach_tagLines (indent : string) (images : list TagImageHook) :
  writes (forEach images (fun image =>
            Fprint (indent ++ "  Tag:" ++ TAB ++ "container " ++ tag_ContainerName image
                      ++ " to " ++ ref_Kind (tag_To image) ++ " " ++ ref_Name (tag_To image)
                      ++ " " ++ ref_Namespace (tag_To image) ++ NL)))
         tt (tagLines indent images).
Proof.
  induction images as [|image rest IH]; cbn [forEach tagLines]; [apply writes_ret|].
  eapply writes_bind; [apply writes_Fprint | exact IH].
Qed.

Lemma writes_conv {A} (m : W A) (a b : A) (t u : string) :
  writes m a t -> a = b -> t = u -> writes m b u.
Proof. now intros Hm <- <-. Qed.

(** X14: a hook that runs no pod is printed without panic and left as it
    is: when it tags images, as a header with its failure policy followed by
    one line an image, in order; when it tags none, as nothing at all. *)
Theorem hook_tag_lines `{Helpers} (prefix : string) (hook : LifecycleHook) (indent : string) :
  ExecNewPod hook = None ->
  (TagImages hook = [] -> writes (printHook prefix hook indent) hook "")
  /\ (TagImages hook <> [] ->
      writes (printHook prefix hook indent) hook
        (indent ++ prefix ++ " hook (tag images, failure policy: "
           ++ FailurePolicy hook ++ "):" ++ NL ++ tagLines indent (TagImages hook))).
Proof.
  intros Ee. unfold printHook. rewrite Ee.
  assert ({| FailurePolicy := FailurePolicy hook; ExecNewPod := None;
             TagImages := TagImages hook |} = hook) as Ehook
    by (destruct hook; cbn in *; now subst).
  split; intros Et.
  - eapply writes_conv.
    + eapply writes_bind; [apply writes_ret|].
      eapply writes_bind; [|apply writes_ret].
      rewrite Et. apply writes_ret.
    + exact Ehook.
    + reflexivity.
  - eapply writes_conv.
    + eapply writes_bind; [apply writes_ret|].
      eapply writes_bind; [|apply writes_ret].
      replace (0 <? lenL (TagImages hook)) with true
        by (destruct (TagImages hook); [contradiction | reflexivity]).
      eapply writes_bind; [apply writes_Fprint | apply forEach_tagLines].
    + exact Ehook.
    + repeat first [ rewrite append_assoc | rewrite append_nil_r
                   | progress cbn [append] ]; reflexivity.
Qed.

Lemma hook_tag_lines_witness :
  writes (@printHook (helpersAt 100) "Post-deployment" tagHook "  ") tagHook
         ("  Post-deployment hook (tag images, failure policy: Ignore):" ++ NL
            ++ "    Tag:" ++ TAB ++ "container web to ImageStreamTag web:stable prod" ++ NL).
Proof.
  refine (proj2 (@hook_tag_lines (helpersAt 100) "Post-deployment" tagHook "  " eq_refl) _).
  discriminate.
Defined.

(** ** The order of the listing *)

Lemma sorted_perm_unique {A} (R : A -> A -> Prop) (l l' : list A) :
  StronglySorted R l -> StronglySorted R l' -> Permutation l l' ->
  (forall a b, In a l -> In b l -> R a b -> R b a -> a = b) ->
  l = l'.
Proof.
  intros Hl. revert l'. induction Hl as [|a t Ht IH Ha]; intros l' Hl' Hp Hanti.
  - apply Permutation_nil in Hp. now subst.
  - destruct l' as [|b t']; [apply Permutation_sym, Permutation_nil in Hp; discriminate|].
    apply StronglySorted_inv in Hl' as [Ht' Hb].
    rewrite Forall_forall in Ha, Hb.
    assert (a = b) as ->.
    { assert (In a (b :: t')) as [Eb|Hin] by (eapply Permutation_in; [exact Hp | now left]);
        [now symmetry|].
      assert (In b (a :: t)) as [Ea|Hin']
          by (eapply Permutation_in; [symmetry; exact Hp | now left]);
        [exact Ea|].
      apply Hanti; [now left | now right | now apply Ha | now apply Hb]. }
    f_equal. apply IH; [exact Ht' | now apply Permutation_cons_inv in Hp |].
    intros x y Hx Hy. apply Hanti; now right.
Qed.

Lemma NoDup_map_In_inj {A B} (f : A -> B) (l : list A) (a b : A) :
  NoDup (map f l) -> In a l -> In b l -> f a = f b -> a = b.
Proof.
  induction l as [|x t IH]; intros Hnd Ha Hb E; [contradiction|].
  cbn [map] in Hnd. inversion Hnd as [|? ? Hnotin Hnd']; subst.
  destruct Ha as [<-|Ha], Hb as [<-|Hb]; trivial.
  - elim Hnotin. rewrite E. now apply in_map.
  - elim Hnotin. rewrite <- E. now apply in_map.
  - now apply IH.
Qed.

Lemma sortedHistory_order (items items' : list ReplicationController) :
  Permutation items items' -> NoDup (map rcName items) ->
  sortedHistory items = sortedHistory items'.
Proof.
  intros Hp Hnd.
  apply (sorted_perm_unique (notAfter (sort_Reverse OverlappingControllers_Less)));
    try apply sortedHistory_sorted.
  - rewrite !sortedHistory_perm. exact Hp.
  - intros a b Ha Hb Hab Hba.
    assert (NoDup (map rcName (sortedHistory items))) as Hnd'
      by (eapply Permutation_NoDup; [|exact Hnd];
          apply Permutation_map; symmetry; apply sortedHistory_perm).
    apply (NoDup_map_In_inj rcName _ a b Hnd' Ha Hb).
    unfold notAfter, sort_Reverse in Hab, Hba. apply Less_false_iff in Hab, Hba.
    destruct Hab as [G|[E L]], Hba as [G'|[E' L']]; try lia.
    destruct (ltb_total (rcName a) (rcName b)) as [X|[X|X]]; congruence.
Qed.

(** X15: the history does not depend on the order in which the cluster
    lists the deployments, as long as their names are distinct. *)
Theorem history_listing_order `{Helpers} (d d' : DeploymentConfigDescriber)
    (namespace : string) (deploymentConfig : DeploymentConfig) (deploymentName : string)
    (items items' : list ReplicationController) :
  config d = None -> config d' = None ->
  ReplicationControllers_List (kubeClient d) namespace = inl items ->
  ReplicationControllers_List (kubeClient d') namespace = inl items' ->
  Permutation items items' ->
  NoDup (map rcName items) ->
  forall out,
    describeHistory d namespace deploymentConfig deploymentName out
    = describeHistory d' namespace deploymentConfig deploymentName out.
Proof.
  intros Hc Hc' Hl Hl' Hp Hnd out.
  rewrite (describeHistory_writes d), (describeHistory_writes d').
  rewrite Hc, Hc', Hl, Hl', (sortedHistory_order _ _ Hp Hnd). reflexivity.
Qed.

Lemma history_listing_order_witness :
  Permutation [app1; app2; app3] [app3; app1; app2]
  /\ NoDup (map rcName [app1; app2; app3])
  /\ @describeHistory (helpersAt 100) (describerOf (appAt 3) [app1; app2; app3])
       "test" (appAt 3) "app-3" ""
     = @describeHistory (helpersAt 100) (describerOf (appAt 3) [app3; app1; app2])
         "test" (appAt 3) "app-3" "".
Proof.
  assert (Permutation [app1; app2; app3] [app3; app1; app2]) as Hp.
  { apply Permutation_sym. apply (Permutation_cons_app [app1; app2] [] app3). reflexivity. }
  assert (NoDup (map rcName [app1; app2; app3])) as Hnd.
  { repeat constructor; cbn; intuition discriminate. }
  split; [exact Hp|]. split; [exact Hnd|].
  exact (@history_listing_order (helpersAt 100)
           (describerOf (appAt 3) [app1; app2; app3])
           (describerOf (appAt 3) [app3; app1; app2])
           "test" (appAt 3) "app-3" _ _ eq_refl eq_refl eq_refl eq_refl Hp Hnd "").
Defined.

(** ** What [Describe] does to the config it was given *)

Lemma yields_reflow (sep : string) (args : list string) :
  yields (liftOption (multilineStringArray sep (TAB ++ "  ") args))
         (strings_Join (reflowCommand args) " ", reflowCommand args).
Proof.
  destruct args as [|a rest].
  - intros out b out' E. discriminate.
  - rewrite multilineStringArray_joins by discriminate. apply yields_ret.
Qed.

Section Reflowed.
Context `{Helpers}.

Lemma printHookIfSet_reflows prefix hook indent :
  yields (printHookIfSet prefix hook indent) (reflowHook hook).
Proof.
  unfold printHookIfSet. destruct hook as [h|]; [|apply yields_ret].
  eapply yields_bind; [|apply yields_ret].
  unfold printHook.
  eapply (yields_bind _ _
            (option_map
               (fun e => {| exec_Command := reflowCommand (exec_Command e);
                            exec_Env := exec_Env e;
                            exec_ContainerName := exec_ContainerName e |})
               (ExecNewPod h))).
  - destruct (ExecNewPod h) as [e|]; [|apply yields_ret].
    apply yields_bind_any; intro. apply yields_bind_any; intro.
    eapply yields_bind; [apply yields_reflow|].
    cbn beta iota. apply yields_bind_any; intro. apply yields_bind_any; intro.
    apply yields_ret.
  - apply yields_bind_any; intro. apply yields_ret.
Qed.

Lemma printStrategy_reflows strategy indent :
  yields (printStrategy strategy indent) (reflowStrategy strategy).
Proof.
  unfold printStrategy.
  eapply (yields_bind _ _ (CustomParams (reflowStrategy strategy))).
  { cbn [reflowStrategy CustomParams].
    destruct (CustomParams strategy) as [p|]; [|apply yields_ret].
    apply yields_bind_any; intro. apply yields_bind_any; intro. cbn [option_map].
    destruct p as [image env [|c rest]]; cbn [custom_Command custom_Image custom_Environment].
    - apply yields_ret.
    - replace (0 <? lenL (c :: rest)) with true by reflexivity.
      eapply yields_bind; [apply yields_reflow|].
      cbn beta iota. apply yields_bind_any; intro. apply yields_ret. }
  eapply (yields_bind _ _ (RecreateParams (reflowStrategy strategy))).
  { cbn [reflowStrategy RecreateParams].
    destruct (RecreateParams strategy) as [p|]; [|apply yields_ret].
    eapply yields_bind; [apply printHookIfSet_reflows|].
    eapply yields_bind; [apply printHookIfSet_reflows|].
    eapply yields_bind; [apply printHookIfSet_reflows|].
    apply yields_ret. }
  eapply (yields_bind _ _ (RollingParams (reflowStrategy strategy))).
  { cbn [reflowStrategy RollingParams].
    destruct (RollingParams strategy) as [p|]; [|apply yields_ret].
    eapply yields_bind; [apply printHookIfSet_reflows|].
    eapply yields_bind; [apply printHookIfSet_reflows|].
    apply yields_ret. }
  apply yields_ret.
Qed.

Lemma describeBody_reflows d namespace settings dc :
  yields (describeBody d namespace settings dc) (None, reflowConfig dc).
Proof.
  unfold describeBody, describeConfig, printDeploymentConfigSpec.
  eapply (yields_bind _ _ (reflowConfig dc)).
  - apply yields_bind_any; intro. apply yields_bind_any; intro.
    eapply (yields_bind _ _ (reflowConfig dc)).
    + apply yields_bind_any; intro. apply yields_bind_any; intro.
      apply yields_bind_any; intro. apply yields_bind_any; intro.
      apply yields_bind_any; intro.
      eapply yields_bind; [apply printStrategy_reflows|].
      apply yields_bind_any; intro. apply yields_bind_any; intro.
      apply yields_ret.
    + apply yields_bind_any; intro. apply yields_bind_any; intro. apply yields_ret.
  - apply yields_bind_any; intro. apply yields_bind_any; intro.
    apply yields_bind_any; intro. apply yields_ret.
Qed.
End Reflowed.

(** X16: whenever [Describe] returns for a describer that was given a
    config, the describer holds that config with every token of the commands
    of its custom parameters and hooks reflowed, and nothing else changed:
    metadata, status, triggers, replicas, selector, template, images,
    environments and tags are as before, and so are the clients. *)
Theorem describe_reflows_given_config `{Helpers} (d d' : DeploymentConfigDescriber)
    (namespace name : string) (settings : DescriberSettings) (dc : DeploymentConfig)
    (text : string) (err : option error) :
  config d = Some dc ->
  Describe d namespace name settings = Some (text, err, d') ->
  d' = {| osClient := osClient d; kubeClient := kubeClient d;
          config := Some (reflowConfig dc) |}.
Proof.
  intros Hc E. unfold Describe in E. rewrite Hc in E. unfold tabbedString in E.
  destruct (describeBody d namespace settings dc "") as [[[e s] out]|] eqn:Eb;
    [|discriminate].
  apply (describeBody_reflows d namespace settings dc) in Eb.
  injection Eb as -> ->. now injection E as _ _ <-.
Qed.

Lemma describe_reflows_given_config_witness :
  exists text,
    @Describe (helpersAt 100) (describerGiven scripted) "test" "app" noEvents
    = Some (text, None, describerGiven (reflowConfig scripted))
    /\ custom_Command
         (match CustomParams (Strategy (dc_Spec (reflowConfig scripted))) with
          | Some p => p
          | None => {| custom_Image := ""; custom_Environment := []; custom_Command := [] |}
          end)
       = ["sh"; "-c"; NL ++ TAB ++ "  echo a" ++ NL ++ TAB ++ "  echo b"].
Proof.
  eassert (@Describe (helpersAt 100) (describerGiven scripted) "test" "app" noEvents
           = Some (_, None, _)) as E by (vm_compute; reflexivity).
  pose proof (@describe_reflows_given_config (helpersAt 100) (describerGiven scripted) _
                "test" "app" noEvents scripted _ _ eq_refl E) as Hd.
  eexists. split; [|vm_compute; reflexivity].
  rewrite E. exact (f_equal (fun x => Some (_, None, x)) Hd).
Defined.

(** X17: [Get] of "~" never fails with a not-found error: a not-found of
    the store is answered with the virtual user. *)
Theorem get_current_user_never_not_found `{UserPolicy} (r : REST) (ctx : Context)
    (obj : option User) (err : error) (seen : list string) :
  Get r ctx "~" = ((obj, Some err), seen) -> IsNotFound err = false.
Proof.
  unfold Get. cbn [String.eqb Ascii.eqb Bool.eqb].
  destruct (UserFrom ctx) as [user|].
  2:{ intros E. now injection E as _ <- _. }
  destruct (String.eqb (GetName user) "").
  { intros E. now injection E as _ <- _. }
  destruct (negb (fst (ValidateUserName (GetName user) false))); [discriminate|].
  unfold andThen, storeGet.
  destruct (Store_Get (rest_Store r) ctx (GetName user)) as [obj' [e|]]; [|discriminate].
  destruct (IsNotFound e) eqn:En; cbn [negb]; [discriminate|].
  intros E. now injection E as _ <- _.
Qed.

Lemma get_current_user_never_not_found_witness :
  @Get policy store (contextOf "carol" []) "~"
  = ((None, Some (errors_New "etcd timeout")), ["carol"])
  /\ IsNotFound (errors_New "etcd timeout") = false.
Proof.
  split; [reflexivity|].
  exact (@get_current_user_never_not_found policy store (contextOf "carol" [])
           None (errors_New "etcd timeout") ["carol"] eq_refl).
Defined.
